(** * mobilize: the transit backend (route recommendation, nearest stop,
      simulated bus locations, incident reports)

    A shallow embedding of the TypeScript backend and the properties of its
    specification.  JavaScript numbers are IEEE-754 binary64 values, that
    is Rocq's primitive floats; the arithmetic of the program is the
    arithmetic of [PrimFloat], specified by [SpecFloat]. *)

From Stdlib Require Import ZArith List Bool Lia Floats Uint63.
From stdpp Require Import gmap strings pretty.
Import ListNotations.

Set Warnings "-inexact-float,-clear-no-such-hyp".
Local Open Scope Z_scope.

(** ** JavaScript values the program uses *)

(** How a call completes: normally with a value, or abruptly with a thrown
    error.  [TypeError] is what the runtime raises (reduce of an empty
    array without initial value, property access on undefined).  The
    other three are the names of the specification's taxonomy; no path of
    the program constructs them. *)
Inductive Error : Set :=
| TypeError
| EmptyIndex
| EmptyCatalog
| InvalidKind.

Inductive Completion (A : Type) : Type :=
| Normal (a : A)
| Throw (e : Error).
Arguments Normal {A} a.
Arguments Throw {A} e.

(** [Math.PI], the double nearest to pi. *)
Definition Math_PI : float := 3.141592653589793%float.

(** [Math.sqrt] is the correctly rounded IEEE square root. *)
Definition Math_sqrt : float -> float := PrimFloat.sqrt.

(** [Math.sin], [Math.cos] and [Math.atan2] are implementation-approximated
    in ECMAScript: the program is read over any implementation of them. *)
Class MathBuiltins : Type := {
  Math_sin : float -> float;
  Math_cos : float -> float;
  Math_atan2 : float -> float -> float
}.

(** The integer below a double, when it has one (NaN and the infinities
    have none): the value of [Math.floor] read as an integer. *)
Definition floor_Z (x : float) : option Z :=
  match Prim2SF x with
  | S754_zero _ => Some 0
  | S754_finite s m e => Some (Z.shiftl (cond_Zopp s (Zpos m)) e)
  | _ => None
  end.

(** The double of an integer of magnitude at most 2^53 (exactly). *)
Definition float_of_Z (z : Z) : float :=
  if z <? 0 then PrimFloat.opp (of_uint63 (Uint63.of_Z (- z)))
  else of_uint63 (Uint63.of_Z z).

(** [Math.round]: the integral double closest to [x], the one toward
    +infinity on a tie; NaN, the infinities, the zeros and the integral
    doubles are returned as they are; a result that is zero keeps the sign
    of [x]. *)
Definition Math_round (x : float) : float :=
  match Prim2SF x with
  | S754_finite s m e =>
      if 0 <=? e then x
      else
        let z := Z.shiftl (2 * cond_Zopp s (Zpos m) + Z.shiftl 1 (- e)) (e - 1) in
        if z =? 0 then (if s then PrimFloat.neg_zero else PrimFloat.zero)
        else float_of_Z z
  | _ => x
  end.

(** [arr.length] as a number. *)
Definition length_number {A} (arr : list A) : float :=
  of_uint63 (Uint63.of_Z (Z.of_nat (length arr))).

(** [arr[Math.floor(x)]]: the element at the index, [None] (undefined)
    when the floor is not an index of [arr] (NaN, an infinity, a negative
    number, or past the end). *)
Definition at_floor {A} (arr : list A) (x : float) : option A :=
  match floor_Z x with
  | Some z => if z <? 0 then None else nth_error arr (Z.to_nat z)
  | None => None
  end.

(** [arr.reduce(callback)] without initial value: the first element starts
    the accumulation; on an empty array the runtime throws a TypeError. *)
Definition reduce {A} (callback : A -> A -> A) (arr : list A) : Completion A :=
  match arr with
  | [] => Throw TypeError
  | first :: rest => Normal (fold_left callback rest first)
  end.

(** ** Data model *)

Record Route : Type := {
  route_id : string;
  route_short_name : string;
  route_long_name : string;
  route_color : string
}.

Record Stop : Type := {
  stop_id : string;
  stop_name : string;
  stop_lat : float;
  stop_lon : float
}.

Record Location : Type := {
  lat : float;
  lon : float
}.

(** [route] is [None] when the program leaves it undefined. *)
Record RouteRecommendation : Type := {
  route : option Route;
  startStop : Stop;
  endStop : Stop;
  estimatedDuration : float
}.

(** [type] is declared as one of three literals, but the value comes from
    a request body of type [any]: at run time it is whatever string was
    sent.  [timestamp] is a time value: an integral number of ms. *)
Record Report : Type := {
  id : string;
  type : string;
  location : Location;
  description : string;
  timestamp : Z
}.

(** The mock data of the source (its elided entries left out). *)
Definition mock_routes : list Route :=
  [ {| route_id := "419"; route_short_name := "419";
       route_long_name := "Nyabugogo-Cyumbati"; route_color := "e92121" |};
    {| route_id := "101"; route_short_name := "101";
       route_long_name := "Downtown-Remera"; route_color := "B55C93" |} ].

Definition mock_stops : list Stop :=
  [ {| stop_id := "3a7a"; stop_name := "Kwa Rwahama";
       stop_lat := (-1.952559)%float; stop_lon := 30.120783%float |};
    {| stop_id := "936d1650-82dc-4b35-8b4e-4a5608978387"; stop_name := "Kagugu B";
       stop_lat := (-1.912372)%float; stop_lon := 30.082796%float |} ].

(** ** Helper functions *)

Section Helpers.
Context {math : MathBuiltins}.
Local Open Scope float_scope.

Definition calculateDistance (loc1 loc2 : Location) : float :=
  let R := 6371 in
  let dLat := (lat loc2 - lat loc1) * Math_PI / 180 in
  let dLon := (lon loc2 - lon loc1) * Math_PI / 180 in
  let a := Math_sin (dLat / 2) * Math_sin (dLat / 2) +
           Math_cos (lat loc1 * Math_PI / 180) * Math_cos (lat loc2 * Math_PI / 180) *
           Math_sin (dLon / 2) * Math_sin (dLon / 2) in
  let c := 2 * Math_atan2 (Math_sqrt a) (Math_sqrt (1 - a)) in
  R * c.

(** The position of a stop, as the object literal the callback builds. *)
Definition position (stop : Stop) : Location :=
  {| lat := stop_lat stop; lon := stop_lon stop |}.

Definition nearer (location : Location) (nearest stop : Stop) : Stop :=
  let distance := calculateDistance location (position stop) in
  if distance <? calculateDistance location (position nearest) then stop else nearest.

Definition findNearestStop (stops : list Stop) (location : Location) : Completion Stop :=
  reduce (nearer location) stops.

End Helpers.

(** ** The process: state, host calls, handlers *)

(** The sources of values the program does not compute: [Math.random()],
    [Date.now()] and [uuidv4()], each as the sequence of its results in
    call order. *)
Class Host : Type := {
  Math_random : nat -> float;
  Date_now : nat -> Z;
  uuidv4 : nat -> string
}.

(** The names of the properties every object inherits from
    [Object.prototype]: under such a name [busLocations[name]] is an
    object (a function, or the prototype itself for [__proto__]) although
    [busLocations] has no entry of its own. *)
Definition Object_prototype_names : list string :=
  ["constructor"; "__defineGetter__"; "__defineSetter__"; "hasOwnProperty";
   "__lookupGetter__"; "__lookupSetter__"; "isPrototypeOf"; "propertyIsEnumerable";
   "toString"; "valueOf"; "__proto__"; "toLocaleString"].

Definition inherited (key : string) : bool :=
  existsb (String.eqb key) Object_prototype_names.

(** The module-level variables [busLocations] and [reports], and how many
    times each host source has been called.  [busLocations] is a plain
    object used as a map from route id to location: its own properties
    are the finite map below, and it inherits the properties named by
    [Object_prototype_names].  What the program writes on an inherited
    object (see [poll]) is not kept: nothing but the statement that wrote
    it reads it. *)
Record State : Type := {
  busLocations : gmap string Location;
  reports : list Report;
  random_calls : nat;
  now_calls : nat;
  uuid_calls : nat
}.

(** The state in which the module starts to load. *)
Definition initial : State :=
  {| busLocations := ∅; reports := []; random_calls := 0%nat;
     now_calls := 0%nat; uuid_calls := 0%nat |}.

(** A computation reads and updates the state and completes normally or
    by throwing; what it did to the state before throwing stays done. *)
Definition M (A : Type) : Type := State -> Completion A * State.

Definition ret {A} (a : A) : M A := fun st => (Normal a, st).

Definition throw {A} (e : Error) : M A := fun st => (Throw e, st).

Definition bind {A B} (c : M A) (k : A -> M B) : M B :=
  fun st =>
    match c st with
    | (Normal a, st') => k a st'
    | (Throw e, st') => (Throw e, st')
    end.

Definition lift {A} (c : Completion A) : M A := fun st => (c, st).

Notation "'let*' x ':=' c1 'in' c2" := (bind c1 (fun x => c2))
  (at level 10, x name, c1 at level 100, c2 at level 200).
Notation "'run' c1 'then' c2" := (bind c1 (fun _ => c2))
  (at level 10, c1 at level 100, c2 at level 200).

(** [arr.forEach(callback)]. *)
Fixpoint forEach {A} (callback : A -> M unit) (arr : list A) : M unit :=
  match arr with
  | [] => ret tt
  | x :: rest => run callback x then forEach callback rest
  end.

(** [arr.filter(callback)] with a callback that consults the host: the
    elements are visited in order and the survivors form a new array. *)
Fixpoint filter_with {A} (callback : A -> M bool) (arr : list A) : M (list A) :=
  match arr with
  | [] => ret []
  | x :: rest =>
      let* keep := callback x in
      let* kept := filter_with callback rest in
      ret (if keep then x :: kept else kept)
  end.

Section Server.
Context {math : MathBuiltins} {host : Host}.
Variable routes : list Route.
Variable stops : list Stop.

Definition random : M float :=
  fun st =>
    (Normal (Math_random (random_calls st)),
     {| busLocations := busLocations st; reports := reports st;
        random_calls := S (random_calls st); now_calls := now_calls st;
        uuid_calls := uuid_calls st |}).

Definition now : M Z :=
  fun st =>
    (Normal (Date_now (now_calls st)),
     {| busLocations := busLocations st; reports := reports st;
        random_calls := random_calls st; now_calls := S (now_calls st);
        uuid_calls := uuid_calls st |}).

Definition uuid : M string :=
  fun st =>
    (Normal (uuidv4 (uuid_calls st)),
     {| busLocations := busLocations st; reports := reports st;
        random_calls := random_calls st; now_calls := now_calls st;
        uuid_calls := S (uuid_calls st) |}).

Definition set_busLocations (m : gmap string Location) : M unit :=
  fun st =>
    (Normal tt,
     {| busLocations := m; reports := reports st;
        random_calls := random_calls st; now_calls := now_calls st;
        uuid_calls := uuid_calls st |}).

Definition push_report (r : Report) : M unit :=
  fun st =>
    (Normal tt,
     {| busLocations := busLocations st; reports := reports st ++ [r];
        random_calls := random_calls st; now_calls := now_calls st;
        uuid_calls := uuid_calls st |}).

Definition get_busLocations : M (gmap string Location) :=
  fun st => (Normal (busLocations st), st).

Definition get_reports : M (list Report) :=
  fun st => (Normal (reports st), st).

(** *** AI functions *)

Definition recommendRoute (start end_ : Location) : M RouteRecommendation :=
  let* startStop := lift (findNearestStop stops start) in
  let* endStop := lift (findNearestStop stops end_) in
  let* r := random in
  let recommendedRoute := at_floor routes (r * length_number routes)%float in
  let estimatedDuration :=
    Math_round (calculateDistance start end_ / 30 * 60)%float in
  ret {| route := recommendedRoute; startStop := startStop;
         endStop := endStop; estimatedDuration := estimatedDuration |}.

(** *** Simulated real-time bus locations *)

(** The amount one poll adds to a coordinate of a tracked bus. *)
Definition movement (r : float) : float := ((r - 0.5) * 0.001)%float.

(** The callback of [routes.forEach] in the handler of
    [/api/bus-locations]: one poll of one route. *)
Definition poll (route : Route) : M unit :=
  let* locations := get_busLocations in
  match locations !! route_id route with
  | None =>
      if inherited (route_id route) then
        (* [busLocations[route.route_id]] is an inherited object, hence
           truthy: the branch of the movement runs on it, its [lat] and
           [lon] become NaN, and [busLocations] gets no entry *)
        let* r1 := random in
        let* r2 := random in
        ret tt
      else
        let* r := random in
        match at_floor stops (r * length_number stops)%float with
        | None => throw TypeError
        | Some randomStop =>
            set_busLocations (<[route_id route := position randomStop]> locations)
        end
  | Some bus =>
      let* r1 := random in
      let bus1 := {| lat := (lat bus + movement r1)%float; lon := lon bus |} in
      let* r2 := random in
      let bus2 := {| lat := lat bus1; lon := (lon bus1 + movement r2)%float |} in
      set_busLocations (<[route_id route := bus2]> locations)
  end.

(** The handler of [/api/bus-locations]: poll every route, answer with
    the whole map. *)
Definition pollAll : M (gmap string Location) :=
  run forEach poll routes then
  get_busLocations.

(** *** Simulated user reporting system *)

(** The callback of the filter below: [Date.now()] is read at every
    report visited. *)
Definition within_hour (report : Report) : M bool :=
  let* t := now in
  ret (t - timestamp report <? 3600000).

(** The handler of [/api/reports]: only the reports of the last hour. *)
Definition recentReports : M (list Report) :=
  let* all := get_reports in
  filter_with within_hour all.

End Server.

(** ** Concrete inputs to run the program on *)

(** The two points of the demonstration at the end of the source. *)
Definition demo_start : Location := {| lat := (-1.9534)%float; lon := 30.0616%float |}.
Definition demo_end : Location := {| lat := (-1.9686)%float; lon := 30.1344%float |}.

(** An implementation of the three builtins by the first terms of their
    series, good for the small angles of a city. *)
Definition series_math : MathBuiltins :=
  {| Math_sin := fun x => (x * (1 - x * x / 6))%float;
     Math_cos := fun x => (1 - x * x / 2)%float;
     Math_atan2 := fun y x => (y / x * (1 - y / x * (y / x) / 3))%float |}.

(** A host whose random numbers cycle through four values of [0, 1),
    whose clock advances one millisecond every eight readings, and whose
    identifiers are numbered. *)
Definition demo_host : Host :=
  {| Math_random := fun k => nth (k mod 4) [0.25; 0.75; 0; 0.5]%float 0.5%float;
     Date_now := fun k => 1726000000000 + Z.of_nat (k / 8);
     uuidv4 := fun k => String.append "report-" (pretty k) |}.



(** A route whose id is the name of a property every object inherits. *)
Definition route_constructor : Route :=
  {| route_id := "constructor"; route_short_name := "C";
     route_long_name := "Constructor line"; route_color := "000000" |}.

(** A point west of Kigali, a stop at that very point, and a stop at the
    antipode of the point. *)
Definition home : Location := {| lat := (-2.255)%float; lon := 30%float |}.

Definition home_stop : Stop :=
  {| stop_id := "home"; stop_name := "Home";
     stop_lat := (-2.255)%float; stop_lon := 30%float |}.

Definition antipode_stop : Stop :=
  {| stop_id := "antipode"; stop_name := "Antipode";
     stop_lat := 2.255%float; stop_lon := (-150)%float |}.

(** The builtins as this example meets them.  At the two angles of the
    example, 0.03935717463247213 (2.255 degrees, in radians) and pi/2,
    the sine and the cosine are the doubles nearest to the exact values,
    which any implementation accurate to 0.7 units in the last place
    returns there; the sine of a zero is that zero; [atan2] of a NaN is
    NaN and [atan2] of a zero and a positive number is that zero, as
    ECMAScript fixes them.  Elsewhere the series stand in. *)
Definition rounded_math : MathBuiltins :=
  {| Math_sin := fun x =>
       if PrimFloat.eqb (abs x) 0.03935717463247213 then
         (if PrimFloat.ltb x 0 then -0.03934701479278729 else 0.03934701479278729)%float
       else if PrimFloat.eqb (abs x) 1.5707963267948966 then
         (if PrimFloat.ltb x 0 then -1 else 1)%float
       else if PrimFloat.eqb x 0 then x
       else Math_sin (MathBuiltins := series_math) x;
     Math_cos := fun x =>
       if PrimFloat.eqb (abs x) 0.03935717463247213 then 0.9992256063707016%float
       else Math_cos (MathBuiltins := series_math) x;
     Math_atan2 := fun y x =>
       if PrimFloat.is_nan y || PrimFloat.is_nan x then PrimFloat.nan
       else if PrimFloat.eqb y 0 && PrimFloat.ltb 0 x then y
       else Math_atan2 (MathBuiltins := series_math) y x |}.

(** * Notions the properties are stated with *)

(** ** Doubles *)

(** The number of binary digits of a mantissa. *)
Definition digits (m : positive) : Z := Zpos (digits2_pos m).

(** The exponent function of binary64. *)
Definition fexp64 (e : Z) : Z := Z.max (e - 53) (-1074).

(** What a shift record stands for: [X] in units of [2^j] is the mantissa,
    then the round bit, then the rest, which the sticky bit tells from
    zero. *)
Definition rep (X j : Z) (mrs : shr_record) : Prop :=
  0 <= shr_m mrs /\
  exists t, 0 <= t < 2 ^ (j - 1) /\
    X = shr_m mrs * 2 ^ j + (if shr_r mrs then 2 ^ (j - 1) else 0) + t /\
    (shr_s mrs = false <-> t = 0).

(** [m1] is [M / 2^k] rounded to an integer, no farther than half a unit
    and never across an integer. *)
Definition rounds (M k m1 : Z) : Prop :=
  0 <= m1 <= M + 1 /\
  (k = 0 -> m1 = M) /\
  (1 <= k -> 2 * (m1 * 2 ^ k) <= 2 * M + 2 ^ k) /\
  (forall B, M <= B * 2 ^ k -> m1 <= B).

(** A finite double [m * 2^e] counted in units of [2^-1074]. *)
Definition ticks (m : positive) (e : Z) : Z := Zpos m * 2 ^ (e + 1074).
Arguments ticks : simpl never.

(** The value of a specification float, in ticks, when it is finite. *)
Definition SFticks (x : spec_float) : option Z :=
  match x with
  | S754_zero _ => Some 0
  | S754_finite s m e => Some (cond_Zopp s (ticks m e))
  | _ => None
  end.

(** Neither NaN nor an infinity. *)
Definition SFfinite (x : spec_float) : Prop :=
  match x with
  | S754_zero _ | S754_finite _ _ _ => True
  | _ => False
  end.

(** A double of [0, 1), as the comparisons of the program see it. *)
Definition unit_interval (r : float) : bool :=
  PrimFloat.leb 0 r && PrimFloat.ltb r 1.

(** ** Coordinates and distances *)

(** A coordinate both of whose components are finite doubles; the
    coordinates of the data model (latitude within [-90, 90], longitude
    within [-180, 180]) are of this kind. *)
Definition finite_coordinate (l : Location) : bool :=
  PrimFloat.is_finite (lat l) && PrimFloat.is_finite (lon l).

(** The cosine the host returns for the latitude of [l], as
    [calculateDistance] asks for it, is within [-1, 1]. *)
Definition cos_in_range {math : MathBuiltins} (l : Location) : bool :=
  PrimFloat.leb (abs (Math_cos (lat l * Math_PI / 180))) 1.

(** The haversine term of a difference of coordinates, as
    [calculateDistance] computes it. *)
Definition hav {math : MathBuiltins} (d : float) : float :=
  (Math_sin (d * Math_PI / 180 / 2) * Math_sin (d * Math_PI / 180 / 2))%float.

(** The distance the callback of [findNearestStop] computes for a stop. *)
Definition distance_to {math : MathBuiltins} (location : Location) (stop : Stop) : float :=
  calculateDistance location (position stop).

(** What the accumulator of the reduction is to the stops visited so far:
    it is the stop at index [i], no visited stop is strictly nearer, and
    no stop before [i] is at the same distance. *)
Definition leads {math : MathBuiltins} (location : Location)
    (visited : list Stop) (i : nat) (nearest : Stop) : Prop :=
  visited !! i = Some nearest /\
  (forall stop, stop ∈ visited ->
     PrimFloat.ltb (distance_to location stop) (distance_to location nearest) = false) /\
  (forall j stop, (j < i)%nat -> visited !! j = Some stop ->
     PrimFloat.eqb (distance_to location stop) (distance_to location nearest) = false).

(** The boundary stops of a recommendation, or the error. *)
Definition boundary_stops (c : Completion RouteRecommendation) : Completion (Stop * Stop) :=
  match c with
  | Normal r => Normal (startStop r, endStop r)
  | Throw e => Throw e
  end.

(** ** States of the process *)

(** What ECMAScript promises of [Math.random()]: every result is at least
    0 and less than 1. *)
Definition random_ok {host : Host} : Prop :=
  forall k, unit_interval (Math_random k) = true.

(** The state after [n] more readings of the clock. *)
Definition after_now (n : nat) (st : State) : State :=
  {| busLocations := busLocations st; reports := reports st;
     random_calls := random_calls st; now_calls := (n + now_calls st)%nat;
     uuid_calls := uuid_calls st |}.

(** The state with the map [m] and [n] more random numbers drawn. *)
Definition moved (m : gmap string Location) (n : nat) (st : State) : State :=
  {| busLocations := m; reports := reports st;
     random_calls := (n + random_calls st)%nat; now_calls := now_calls st;
     uuid_calls := uuid_calls st |}.

(** The state after [n] invocations of the handler of [/api/bus-locations]. *)
Fixpoint after_polls {host : Host} (routes : list Route) (stops : list Stop)
    (n : nat) (st : State) : State :=
  match n with
  | O => st
  | S n' => after_polls routes stops n' (snd (pollAll routes stops st))
  end.

(** Three stored reports: one a millisecond too old, one a millisecond
    inside the hour, one just made. *)
Definition three_reports : State :=
  {| busLocations := ∅;
     reports :=
       [ {| id := "report-0"; type := "TRAFFIC"; location := demo_start;
            description := "Heavy traffic due to road construction";
            timestamp := 1726000000000 - 3600001 |};
         {| id := "report-1"; type := "ACCIDENT"; location := demo_end;
            description := "Collision"; timestamp := 1726000000000 - 3599999 |};
         {| id := "report-2"; type := "OTHER"; location := demo_end;
            description := "Road closed"; timestamp := 1726000000000 |} ];
     random_calls := 0; now_calls := 0; uuid_calls := 3 |}.

(** * The application: its requests and its start *)

(** The body of a request for a recommendation, as the handler reads it:
    [req.body] is of type [any], and so are its fields [start] and [end].
    A field that is missing or null is [None] (reading its [lat] throws);
    any other value is [Some] of the numbers its [lat] and [lon] read as
    in the arithmetic of [calculateDistance] (NaN where it has none). *)
Record Body : Type := {
  body_start : option Location;
  body_end : option Location
}.

(** The requests: those a handler is registered for, and the submission
    of a report, [POST /api/report], for which none is (its registration,
    lines 149 to 160, is commented out).  A recommendation request comes
    with its body, [None] when [req.body] itself is undefined. *)
Inductive Request : Type :=
| POST_recommend_route (body : option Body)
| GET_stops
| GET_routes
| GET_bus_locations
| GET_reports
| POST_report (type_ : string) (location_ : option Location) (description_ : string).

(** The answers: the JSON the handlers send, and the 404 the framework
    sends for a request without handler. *)
Inductive Response : Type :=
| json_recommendation (recommendation : RouteRecommendation)
| json_stops (stops : list Stop)
| json_routes (routes : list Route)
| json_busLocations (locations : gmap string Location)
| json_reports (recentReports : list Report)
| not_found.

Section Application.
Context {math : MathBuiltins} {host : Host}.
Variable routes : list Route.
Variable stops : list Stop.

(** [recommendRoute] on the two fields of a body as they come.  With a
    missing field the first read of its [lat] throws a TypeError: in the
    callback of the reduction of [findNearestStop], which runs when there
    are two stops or more; with one stop the reduction returns it without
    calling the callback, and the read that throws is that of line 90,
    after the random number of line 88 has been drawn.  With no stops the
    reduction itself throws. *)
Definition recommendRoute_any (start end_ : option Location) : M RouteRecommendation :=
  match start, end_ with
  | Some start, Some end_ => recommendRoute routes stops start end_
  | _, _ =>
      match stops with
      | [] => throw TypeError
      | [_] => let* r := random in throw TypeError
      | _ :: _ :: _ => throw TypeError
      end
  end.

(** The handlers registered on [app], by request.  Destructuring an
    undefined [req.body] throws a TypeError. *)
Definition handle (req : Request) : M Response :=
  match req with
  | POST_recommend_route None => throw TypeError
  | POST_recommend_route (Some body) =>
      let* recommendation := recommendRoute_any (body_start body) (body_end body) in
      ret (json_recommendation recommendation)
  | GET_stops => ret (json_stops stops)
  | GET_routes => ret (json_routes routes)
  | GET_bus_locations =>
      let* locations := pollAll routes stops in
      ret (json_busLocations locations)
  | GET_reports =>
      let* recent := recentReports in
      ret (json_reports recent)
  | POST_report _ _ _ => ret not_found
  end.

(** The state after a sequence of requests, each handled to its end
    before the next (a handler that throws leaves the state as it had
    made it). *)
Fixpoint serve (reqs : list Request) (st : State) : State :=
  match reqs with
  | [] => st
  | req :: rest => serve rest (snd (handle req st))
  end.

(** The statements at the end of the module, run once when it loads: a
    recommendation for the two points of the demonstration, then a
    report pushed on the store (what is logged is left out). *)
Definition load : M unit :=
  let* recommendation := recommendRoute routes stops demo_start demo_end in
  let* i := uuid in
  let* t := now in
  let newReport :=
    {| id := i; type := "TRAFFIC";
       location := {| lat := (-1.9534)%float; lon := 30.0616%float |};
       description := "Heavy traffic due to road construction";
       timestamp := t |} in
  push_report newReport.

End Application.

(** ** Further notions *)

(** The reports the filter of [/api/reports] keeps when the clock is read
    for the [k]-th time at the first of them. *)
Fixpoint kept_from {host : Host} (k : nat) (rs : list Report) : list Report :=
  match rs with
  | [] => []
  | report :: rest =>
      if Date_now k - timestamp report <? 3600000
      then report :: kept_from (S k) rest
      else kept_from (S k) rest
  end.

(** The route ids of a catalog. *)
Definition route_ids (routes : list Route) : gset string :=
  list_to_set (route_id <$> routes).

(** Every route of the catalog has an entry. *)
Definition all_tracked (routes : list Route) (st : State) : Prop :=
  forall route, route ∈ routes -> is_Some (busLocations st !! route_id route).

(** No route id of the catalog is the name of an inherited property. *)
Definition own_ids (routes : list Route) : bool :=
  forallb (fun route => negb (inherited (route_id route))) routes.


(** * Properties *)

(** ** The program on concrete inputs *)

Example Math_round_values :
  (Math_round 2.5 = 3 /\ Math_round (-2.5) = -2 /\ Math_round 0.49999999999999994 = 0 /\
   Math_round (-0.2) = -0 /\ Math_round 16.5298 = 17 /\ Math_round 0 = 0 /\
   Math_round nan = nan)%float.
Proof. now vm_compute. Qed.

Example at_floor_values :
  at_floor [10; 20; 30] 2.9%float = Some 30 /\
  at_floor [10; 20; 30] 3%float = None /\
  at_floor [10; 20; 30] (-0.5)%float = None /\
  at_floor [10; 20; 30] nan = None /\
  at_floor (@nil Z) 0%float = None.
Proof. now vm_compute. Qed.

(** The run at the end of the source, over the series implementation:
    some 8.26 km between the two points, 17 minutes at 30 km/h. *)
Example recommendRoute_demo :
  fst (recommendRoute (math := series_math) (host := demo_host)
         mock_routes mock_stops demo_start demo_end initial) =
  Normal {| route := nth_error mock_routes 0;
            startStop := nth 1 mock_stops (Build_Stop "" "" 0 0);
            endStop := nth 0 mock_stops (Build_Stop "" "" 0 0);
            estimatedDuration := 17%float |}.
Proof. now vm_compute. Qed.

(** The example of the specification: of the stops A and B, the nearest
    to the position of A is A. *)
Example findNearestStop_example :
  let A := {| stop_id := "A"; stop_name := "A";
              stop_lat := (-1.9534)%float; stop_lon := 30.0616%float |} in
  let B := {| stop_id := "B"; stop_name := "B";
              stop_lat := (-1.9686)%float; stop_lon := 30.1344%float |} in
  findNearestStop (math := series_math) [A; B] (position A) = Normal A.
Proof. now vm_compute. Qed.

(** Two invocations of the handler of [/api/bus-locations]: the first
    puts each bus on a stop, the second adds to each coordinate an amount
    of at most 0.0005. *)
Example pollAll_demo :
  let st1 := after_polls (host := demo_host) mock_routes mock_stops 1 initial in
  let st2 := after_polls (host := demo_host) mock_routes mock_stops 2 initial in
  busLocations st1 !! "419" = Some {| lat := (-1.952559)%float; lon := 30.120783%float |} /\
  busLocations st1 !! "101" = Some {| lat := (-1.912372)%float; lon := 30.082796%float |} /\
  busLocations st2 !! "419" =
    Some {| lat := (-1.952559 + -0.0005)%float; lon := (30.120783 + 0)%float |} /\
  busLocations st2 !! "101" =
    Some {| lat := (-1.912372 + -0.00025)%float; lon := (30.082796 + 0.00025)%float |}.
Proof. now vm_compute. Qed.


(** ** The order of doubles

    [<] and [==] on JavaScript numbers are the IEEE comparisons; NaN
    compares false with everything.  The facts below are read off the
    specification of [PrimFloat.ltb] and [PrimFloat.eqb]. *)

Ltac cmp_cases :=
  repeat match goal with
  | |- context [Z.compare ?a ?b] => destruct (Z.compare_spec a b)
  | H : context [Z.compare ?a ?b] |- _ => destruct (Z.compare_spec a b)
  | |- context [Pos.compare_cont Eq ?a ?b] =>
      change (Pos.compare_cont Eq a b) with (Pos.compare a b);
      destruct (Pos.compare_spec a b)
  | H : context [Pos.compare_cont Eq ?a ?b] |- _ =>
      change (Pos.compare_cont Eq a b) with (Pos.compare a b) in H;
      destruct (Pos.compare_spec a b)
  end.

Ltac sf_order :=
  unfold SFltb, SFeqb, SFleb, SFcompare;
  repeat match goal with
  | x : spec_float |- _ => destruct x as [[]|[]| |[] ? ?]
  end;
  simpl; try discriminate; try reflexivity; intros;
  cmp_cases; simpl in *; try discriminate; try reflexivity; subst; try lia.

Lemma SFltb_irrefl (x : spec_float) : SFltb x x = false.
Proof. sf_order. Qed.

Lemma SFltb_trans (x y z : spec_float) :
  SFltb x y = true -> SFltb y z = true -> SFltb x z = true.
Proof. revert x y z. intros x y z. sf_order. Qed.

Lemma SFeqb_ltb (x y z : spec_float) :
  SFeqb x y = true -> SFltb y z = true -> SFltb x z = true.
Proof. sf_order. Qed.

Lemma ltb_irrefl (x : float) : PrimFloat.ltb x x = false.
Proof. rewrite FloatAxioms.ltb_spec. apply SFltb_irrefl. Qed.

Lemma ltb_trans (x y z : float) :
  PrimFloat.ltb x y = true -> PrimFloat.ltb y z = true -> PrimFloat.ltb x z = true.
Proof. rewrite !FloatAxioms.ltb_spec. apply SFltb_trans. Qed.

Lemma eqb_ltb (x y z : float) :
  PrimFloat.eqb x y = true -> PrimFloat.ltb y z = true -> PrimFloat.ltb x z = true.
Proof. rewrite FloatAxioms.eqb_spec, !FloatAxioms.ltb_spec. apply SFeqb_ltb. Qed.

(** ** Nearest stop *)

Section Nearest.
Context {math : MathBuiltins}.
Variable location : Location.

Lemma leads_first (first : Stop) : leads location [first] 0 first.
Proof.
  repeat split.
  - intros stop Hin. apply list_elem_of_singleton in Hin as ->. apply ltb_irrefl.
  - intros j stop Hj. lia.
Qed.

Lemma leads_step (visited : list Stop) (i : nat) (nearest stop : Stop) :
  leads location visited i nearest ->
  exists i', leads location (visited ++ [stop]) i' (nearer location nearest stop).
Proof.
  intros (Hi & Hmin & Htie). unfold nearer.
  change (calculateDistance location (position stop)) with (distance_to location stop).
  change (calculateDistance location (position nearest))
    with (distance_to location nearest).
  destruct (PrimFloat.ltb (distance_to location stop) (distance_to location nearest))
    eqn:Hlt.
  - exists (length visited). repeat split.
    + rewrite lookup_app_r by lia. now rewrite Nat.sub_diag.
    + intros p Hin. apply elem_of_app in Hin as [Hin | Hin].
      * destruct (PrimFloat.ltb (distance_to location p) (distance_to location stop))
          eqn:Hp; [|reflexivity].
        rewrite <- (Hmin p Hin). symmetry.
        now apply ltb_trans with (distance_to location stop).
      * apply list_elem_of_singleton in Hin as ->. apply ltb_irrefl.
    + intros j p Hj Hp. rewrite lookup_app_l in Hp by lia.
      destruct (PrimFloat.eqb (distance_to location p) (distance_to location stop))
        eqn:Heq; [|reflexivity].
      rewrite <- (Hmin p); [|eapply list_elem_of_lookup_2; eassumption].
      symmetry. now apply eqb_ltb with (distance_to location stop).
  - exists i.
    assert (Hlen : (i < length visited)%nat) by (eapply lookup_lt_Some; eassumption).
    repeat split.
    + now rewrite lookup_app_l by lia.
    + intros p Hin. apply elem_of_app in Hin as [Hin | Hin]; [now apply Hmin|].
      now apply list_elem_of_singleton in Hin as ->.
    + intros j p Hj Hp. rewrite lookup_app_l in Hp by lia. now apply (Htie j).
Qed.

Lemma leads_fold (rest visited : list Stop) (i : nat) (nearest : Stop) :
  leads location visited i nearest ->
  exists i', leads location (visited ++ rest) i'
               (fold_left (nearer location) rest nearest).
Proof.
  revert visited i nearest.
  induction rest as [|stop rest IH]; intros visited i nearest Hlead; simpl.
  - exists i. now rewrite app_nil_r.
  - destruct (leads_step visited i nearest stop Hlead) as [i' Hstep].
    destruct (IH _ _ _ Hstep) as [i'' Hfold].
    exists i''. now rewrite <- app_assoc in Hfold.
Qed.

End Nearest.

(** C1 fails where the distance comes out as NaN.  The query point is
    (-2.255, 30); one stop is at that very point and another at its
    antipode (2.255, -150), both coordinates of the data model.  For the
    antipode the haversine term is [sin^2 + cos^2] of 2.255 degrees,
    which in doubles is 1.0000000000000002, the square root of [1 - a] is
    NaN and so is the distance.  With the antipode first in the
    collection no comparison against its distance succeeds and it is
    returned, although the other stop is at distance 0; with the stops
    in the other order the stop at distance 0 is returned. *)
Theorem findNearestStop_antipodal :
  findNearestStop (math := rounded_math) [antipode_stop; home_stop] home =
    Normal antipode_stop /\
  PrimFloat.is_nan (calculateDistance (math := rounded_math) home (position antipode_stop))
    = true /\
  calculateDistance (math := rounded_math) home (position home_stop) = 0%float /\
  findNearestStop (math := rounded_math) [home_stop; antipode_stop] home =
    Normal home_stop.
Proof. repeat split; vm_compute; reflexivity. Qed.

(** * The arithmetic of doubles *)

(** ** Rounding *)

Lemma digits_pos (m : positive) : 1 <= digits m.
Proof. unfold digits. lia. Qed.

Lemma digits_bounds (m : positive) : 2 ^ (digits m - 1) <= Zpos m < 2 ^ digits m.
Proof.
  unfold digits. induction m as [m IH | m IH |]; cbn [digits2_pos].
  - rewrite Pos2Z.inj_succ. replace (Z.succ (Zpos (digits2_pos m)) - 1) with
      (Z.succ (Zpos (digits2_pos m) - 1)) by lia.
    rewrite !Z.pow_succ_r by lia. lia.
  - rewrite Pos2Z.inj_succ. replace (Z.succ (Zpos (digits2_pos m)) - 1) with
      (Z.succ (Zpos (digits2_pos m) - 1)) by lia.
    rewrite !Z.pow_succ_r by lia. lia.
  - simpl. lia.
Qed.

(** A value below a power of two has at most that many digits. *)
Lemma digits_le (m : positive) (d : Z) : Zpos m < 2 ^ d -> digits m <= d.
Proof.
  intros Hm. destruct (Z.le_gt_cases (digits m) d) as [|Hgt]; [assumption|].
  pose proof (digits_bounds m) as [Hlo _].
  assert (0 <= d) by (destruct (Z.le_gt_cases 0 d); [assumption|];
    rewrite Z.pow_neg_r in Hm by lia; lia).
  assert (2 ^ d <= 2 ^ (digits m - 1)) by (apply Z.pow_le_mono_r; lia). lia.
Qed.

Lemma digits_ge (m : positive) (d : Z) : 2 ^ d <= Zpos m -> d + 1 <= digits m.
Proof.
  intros Hm. destruct (Z.le_gt_cases (d + 1) (digits m)) as [|Hgt]; [assumption|].
  pose proof (digits_bounds m) as [_ Hhi]. pose proof (digits_pos m).
  assert (2 ^ digits m <= 2 ^ d) by (apply Z.pow_le_mono_r; lia). lia.
Qed.

Lemma rep_start (m : Z) : 0 <= m -> rep (2 * m) 1 (Build_shr_record m false false).
Proof.
  intros Hm. split; [assumption|]. exists 0. simpl. repeat split; lia.
Qed.

Lemma rep_shr_1 (X j : Z) (mrs : shr_record) :
  1 <= j -> rep X j mrs -> rep X (j + 1) (shr_1 mrs).
Proof.
  intros Hj (Hm & t & Ht & HX & Hs). destruct mrs as [m r s]. cbn [shr_m shr_r shr_s] in *.
  unfold rep. replace (j + 1 - 1) with j by lia.
  assert (Hpow : 2 ^ (j + 1) = 2 * 2 ^ j) by (rewrite Z.pow_add_r by lia; lia).
  assert (Hpow' : 2 ^ j = 2 * 2 ^ (j - 1)).
  { replace j with (j - 1 + 1) at 1 by lia. rewrite Z.pow_add_r by lia. lia. }
  assert (Hpos : 0 < 2 ^ (j - 1)) by (apply Z.pow_pos_nonneg; lia).
  assert (Hsticky : orb r s = false <-> (if r then 2 ^ (j - 1) else 0) + t = 0).
  { destruct r, s; simpl; intuition (discriminate || lia). }
  assert (Hrest : 0 <= (if r then 2 ^ (j - 1) else 0) + t < 2 ^ j) by (destruct r; lia).
  destruct m as [|[p|p|]|p]; cbn [shr_1 shr_m shr_r shr_s]; try lia;
    (split; [lia|]);
    exists ((if r then 2 ^ (j - 1) else 0) + t);
    (split; [exact Hrest|]); (split; [|exact Hsticky]);
    rewrite HX, Hpow; try rewrite Pos2Z.inj_xI; try rewrite Pos2Z.inj_xO; lia.
Qed.

Lemma rep_iter (p : positive) : forall (X j : Z) (mrs : shr_record),
  1 <= j -> rep X j mrs -> rep X (j + Zpos p) (SpecFloat.iter_pos shr_1 p mrs).
Proof.
  induction p as [p IH | p IH |]; intros X j mrs Hj Hrep; cbn [SpecFloat.iter_pos].
  - replace (j + Zpos p~1) with (j + 1 + Zpos p + Zpos p) by lia.
    apply IH; [lia|]. apply IH; [lia|]. now apply rep_shr_1.
  - replace (j + Zpos p~0) with (j + Zpos p + Zpos p) by lia.
    apply IH; [lia|]. now apply IH.
  - now apply rep_shr_1.
Qed.

Lemma fexp_64 : SpecFloat.fexp prec emax = fexp64.
Proof. reflexivity. Qed.

Lemma shr_spec (m e n : Z) (mrs : shr_record) (e' : Z) :
  0 <= m ->
  shr (Build_shr_record m false false) e n = (mrs, e') ->
  let k := Z.max n 0 in
  e' = e + k /\ 0 <= shr_m mrs /\ shr_m mrs * 2 ^ k <= m /\
  (k = 0 -> shr_m mrs = m) /\
  rounds m k (round_nearest_even (shr_m mrs) (loc_of_shr_record mrs)).
Proof.
  intros Hm Hshr k. unfold shr in Hshr.
  assert (Hk : k = Z.max n 0) by reflexivity. clearbody k.
  destruct n as [|p|p].
  1, 3: injection Hshr as <- <-; assert (k = 0) by lia; clear Hk; subst k;
    rewrite Z.pow_0_r; unfold rounds; cbn [shr_m loc_of_shr_record round_nearest_even];
    repeat split; intros; lia.
  injection Hshr as <- <-. rewrite Z.max_l in Hk by lia. subst k.
  destruct (rep_iter p (2 * m) 1 _ ltac:(lia) (rep_start m Hm))
    as (Hm' & t & Ht & HX & Hs).
  destruct (SpecFloat.iter_pos shr_1 p _) as [m' r s].
  cbn [shr_m shr_r shr_s] in *. unfold rounds.
  set (m1 := round_nearest_even m' _).
  assert (Hcases : m1 = m' \/ r = true /\ m1 = m' + 1).
  { subst m1. destruct r, s; cbn; try destruct (Z.even m'); auto. }
  clearbody m1.
  replace (1 + Zpos p - 1) with (Zpos p) in * by lia.
  rewrite Z.pow_add_r, Z.pow_1_r in HX by lia.
  assert (Ha : 0 < 2 ^ Zpos p) by (apply Z.pow_pos_nonneg; lia).
  set (a := 2 ^ Zpos p) in *.
  assert (Hfloor : m' * a <= m) by (destruct r; nia).
  assert (Hsmall : m' <= m) by nia.
  repeat split; try assumption; try lia.
  - intros _. destruct Hcases as [-> | [-> ->]]; nia.
  - intros B HB. destruct Hcases as [-> | [-> ->]]; nia.
Qed.

(** What rounding a non-negative mantissa [M] at exponent [E] gives: the
    mantissa is shifted to the exponent the format wants and rounded to
    nearest even, then shifted once more if rounding carried. *)
Lemma binary_round_aux_spec (s : bool) (M E : Z) :
  0 <= M ->
  exists m1 m2 e1 e2,
    e1 = E + Z.max (fexp64 (Zdigits2 M + E) - E) 0 /\
    rounds M (e1 - E) m1 /\
    e2 = e1 + Z.max (fexp64 (Zdigits2 m1 + e1) - e1) 0 /\
    0 <= m2 /\ m2 * 2 ^ (e2 - e1) <= m1 /\ (e2 = e1 -> m2 = m1) /\
    binary_round_aux prec emax s M E loc_Exact =
      match m2 with
      | Z0 => S754_zero s
      | Zpos p => if e2 <=? 971 then S754_finite s p e2 else S754_infinity s
      | Zneg _ => S754_nan
      end.
Proof.
  intros HM. unfold binary_round_aux, shr_fexp.
  change (SpecFloat.fexp prec emax) with fexp64.
  cbn [shr_record_of_loc].
  destruct (shr _ E _) as [mrs' e'] eqn:Hshr1.
  destruct (shr_spec _ _ _ _ _ HM Hshr1) as (He1 & _ & _ & _ & Hround).
  set (m1 := round_nearest_even (shr_m mrs') (loc_of_shr_record mrs')) in *.
  destruct (shr _ e' _) as [mrs'' e''] eqn:Hshr2.
  assert (Hm1 : 0 <= m1) by apply Hround.
  destruct (shr_spec _ _ _ _ _ Hm1 Hshr2) as (He2 & Hm2 & Hfloor & Hsame & _).
  exists m1, (shr_m mrs''), e', e''.
  replace (e' - E) with (Z.max (fexp64 (Zdigits2 M + E) - E) 0) by lia.
  replace (e'' - e') with (Z.max (fexp64 (Zdigits2 m1 + e') - e') 0) by lia.
  split; [assumption|]. split; [exact Hround|]. split; [assumption|].
  split; [assumption|]. split; [assumption|]. split; [|reflexivity].
  intros Heq. apply Hsame. lia.
Qed.

(** ** Doubles as multiples of the smallest one *)

Lemma valid_finite (s : bool) (m : positive) (e : Z) :
  valid_binary (S754_finite s m e) = true ->
  -1074 <= e <= 971 /\ digits m <= 53 /\ (-1074 < e -> digits m = 53).
Proof.
  unfold valid_binary, SpecFloat.valid_binary, bounded, canonical_mantissa.
  change (SpecFloat.fexp prec emax) with fexp64. change (emax - prec) with 971.
  fold (digits m). intros H. apply andb_prop in H as [Hc He].
  apply Z.eqb_eq in Hc. apply Z.leb_le in He. unfold fexp64 in Hc. lia.
Qed.

Lemma pow2_pos (k : Z) : 0 <= k -> 0 < 2 ^ k.
Proof. intros. apply Z.pow_pos_nonneg; lia. Qed.

Lemma pow2_le (a b : Z) : 0 <= a <= b -> 2 ^ a <= 2 ^ b.
Proof. intros. apply Z.pow_le_mono_r; lia. Qed.

Lemma mul_lt_cancel_r (a b c : Z) : 0 < c -> a * c < b * c -> a < b.
Proof. intros Hc H. now apply (Z.mul_lt_mono_pos_r c). Qed.

Lemma pow2_split (a b : Z) : 0 <= a -> 0 <= b -> 2 ^ (a + b) = 2 ^ a * 2 ^ b.
Proof. intros. apply Z.pow_add_r; assumption. Qed.

Lemma ticks_pos (m : positive) (e : Z) : -1074 <= e -> 0 < ticks m e.
Proof. intros. unfold ticks. pose proof (pow2_pos (e + 1074)). nia. Qed.

Lemma ticks_exp_lt (s1 s2 : bool) (m1 m2 : positive) (e1 e2 : Z) :
  valid_binary (S754_finite s1 m1 e1) = true ->
  valid_binary (S754_finite s2 m2 e2) = true ->
  e1 < e2 -> ticks m1 e1 < ticks m2 e2.
Proof.
  intros H1 H2 Hlt.
  apply valid_finite in H1 as (He1 & Hd1 & _).
  apply valid_finite in H2 as (He2 & _ & Hd2).
  pose proof (digits_bounds m1) as [_ Hm1]. pose proof (digits_bounds m2) as [Hm2 _].
  rewrite Hd2 in Hm2 by lia. change (2 ^ (53 - 1)) with (2 ^ 52) in Hm2.
  assert (Hm1' : Zpos m1 < 2 ^ 53).
  { eapply Z.lt_le_trans; [exact Hm1|]. apply Z.pow_le_mono_r; lia. }
  unfold ticks. replace (e2 + 1074) with ((e2 - e1 - 1) + 1 + (e1 + 1074)) by lia.
  rewrite (pow2_split (e2 - e1 - 1 + 1) (e1 + 1074)), (pow2_split (e2 - e1 - 1) 1) by lia.
  pose proof (pow2_pos (e1 + 1074)). pose proof (pow2_pos (e2 - e1 - 1)).
  change (2 ^ 1) with 2. change (2 ^ 53) with (2 * 2 ^ 52) in Hm1'.
  set (a := 2 ^ (e1 + 1074)) in *. set (b := 2 ^ (e2 - e1 - 1)) in *.
  set (c := 2 ^ 52) in *.
  assert (Hma : 0 < Zpos m2 * a) by nia.
  assert (Zpos m1 * a < 2 * c * a) by nia.
  assert (2 * c * a <= 2 * (Zpos m2 * a)) by nia.
  assert (2 * (Zpos m2 * a) <= Zpos m2 * (b * 2 * a)) by nia.
  lia.
Qed.

(** On valid doubles of one sign the comparison by exponent, then by
    mantissa, is the comparison of the values. *)
Lemma compare_ticks (s1 s2 : bool) (m1 m2 : positive) (e1 e2 : Z) :
  valid_binary (S754_finite s1 m1 e1) = true ->
  valid_binary (S754_finite s2 m2 e2) = true ->
  match Z.compare e1 e2 with
  | Lt => Lt
  | Gt => Gt
  | Eq => Pos.compare_cont Eq m1 m2
  end = Z.compare (ticks m1 e1) (ticks m2 e2).
Proof.
  intros H1 H2. symmetry. destruct (Z.compare_spec e1 e2) as [Heq | Hlt | Hgt].
  - subst e2. change (Pos.compare_cont Eq m1 m2) with (Zpos m1 ?= Zpos m2).
    pose proof (valid_finite _ _ _ H1) as (He & _).
    pose proof (pow2_pos (e1 + 1074)). unfold ticks.
    destruct (Z.compare_spec (Zpos m1) (Zpos m2)) as [Hm | Hm | Hm].
    + rewrite Hm. apply Z.compare_refl.
    + apply Z.compare_lt_iff. nia.
    + apply Z.compare_gt_iff. nia.
  - apply Z.compare_lt_iff. eapply ticks_exp_lt; eassumption.
  - apply Z.compare_gt_iff. eapply ticks_exp_lt; eassumption.
Qed.

Ltac order_by_ticks :=
  match goal with
  | |- _ = (?a <=? ?b) => destruct (Z.leb_spec a b)
  | |- _ = (?a <? ?b) => destruct (Z.ltb_spec a b)
  end; try reflexivity; lia.

Ltac compare_by_ticks Hx Hy :=
  let Hc := fresh "Hc" in
  pose proof (compare_ticks _ _ _ _ _ _ Hx Hy) as Hc; revert Hc;
  match goal with
  | |- context [Z.compare ?ex ?ey] =>
      destruct (Z.compare ex ey);
      try match goal with
      | |- context [Pos.compare_cont Eq ?mx ?my] => destruct (Pos.compare_cont Eq mx my)
      end
  end;
  intros Hc; symmetry in Hc;
  first [rewrite Z.compare_eq_iff in Hc | rewrite Z.compare_lt_iff in Hc
        | rewrite Z.compare_gt_iff in Hc].

Lemma SFleb_ticks (x y : spec_float) (a b : Z) :
  valid_binary x = true -> valid_binary y = true ->
  SFticks x = Some a -> SFticks y = Some b ->
  SFleb x y = (a <=? b).
Proof.
  intros Hx Hy Ha Hb. unfold SFleb, SFcompare.
  destruct x as [sx|sx| |sx mx ex], y as [sy|sy| |sy my ey]; try discriminate;
    injection Ha as <-; injection Hb as <-.
  - reflexivity.
  - pose proof (valid_finite _ _ _ Hy) as (He & _). pose proof (ticks_pos my ey).
    destruct sy; simpl; order_by_ticks.
  - pose proof (valid_finite _ _ _ Hx) as (He & _). pose proof (ticks_pos mx ex).
    destruct sx; simpl; order_by_ticks.
  - pose proof (valid_finite _ _ _ Hx) as (Hex & _). pose proof (ticks_pos mx ex).
    pose proof (valid_finite _ _ _ Hy) as (Hey & _). pose proof (ticks_pos my ey).
    destruct sx, sy; simpl; try order_by_ticks; compare_by_ticks Hx Hy; simpl;
      order_by_ticks.
Qed.

Lemma SFltb_ticks (x y : spec_float) (a b : Z) :
  valid_binary x = true -> valid_binary y = true ->
  SFticks x = Some a -> SFticks y = Some b ->
  SFltb x y = (a <? b).
Proof.
  intros Hx Hy Ha Hb. unfold SFltb, SFcompare.
  destruct x as [sx|sx| |sx mx ex], y as [sy|sy| |sy my ey]; try discriminate;
    injection Ha as <-; injection Hb as <-.
  - reflexivity.
  - pose proof (valid_finite _ _ _ Hy) as (He & _). pose proof (ticks_pos my ey).
    destruct sy; simpl; order_by_ticks.
  - pose proof (valid_finite _ _ _ Hx) as (He & _). pose proof (ticks_pos mx ex).
    destruct sx; simpl; order_by_ticks.
  - pose proof (valid_finite _ _ _ Hx) as (Hex & _). pose proof (ticks_pos mx ex).
    pose proof (valid_finite _ _ _ Hy) as (Hey & _). pose proof (ticks_pos my ey).
    destruct sx, sy; simpl; try order_by_ticks; compare_by_ticks Hx Hy; simpl;
      order_by_ticks.
Qed.

Lemma fexp64_mono (a b : Z) : a <= b -> fexp64 a <= fexp64 b.
Proof. unfold fexp64. lia. Qed.

(** Comparing the digit counts of two mantissas whose values compare. *)
Lemma digits_value_le (p q : positive) (E F L : Z) :
  L <= E -> L <= F ->
  Zpos p * 2 ^ (E - L) <= Zpos q * 2 ^ (F - L) ->
  digits p + E <= digits q + F.
Proof.
  intros HE HF Hle.
  pose proof (digits_bounds p) as [Hp _]. pose proof (digits_bounds q) as [_ Hq].
  pose proof (digits_pos p). pose proof (digits_pos q).
  assert (H1 : 2 ^ (digits p - 1 + (E - L)) <= Zpos p * 2 ^ (E - L)).
  { rewrite pow2_split by lia. pose proof (pow2_pos (E - L)). nia. }
  assert (H2 : Zpos q * 2 ^ (F - L) < 2 ^ (digits q + (F - L))).
  { rewrite pow2_split by lia. pose proof (pow2_pos (F - L)). nia. }
  assert (H3 : 2 ^ (digits p - 1 + (E - L)) < 2 ^ (digits q + (F - L))) by lia.
  apply Z.pow_lt_mono_r_iff in H3; lia.
Qed.

(** Rounding to nearest does not cross a double: if the exact value
    [M * 2^E] is at most the double [B * 2^F], so is what it rounds to. *)
Lemma round_le (s : bool) (M E B F L : Z) :
  0 <= M -> 1 <= B -> L <= E -> L <= F ->
  F = fexp64 (Zdigits2 B + F) ->
  M * 2 ^ (E - L) <= B * 2 ^ (F - L) ->
  exists m2 e2,
    0 <= m2 /\ L <= e2 /\ m2 * 2 ^ (e2 - L) <= B * 2 ^ (F - L) /\
    binary_round_aux prec emax s M E loc_Exact =
      match m2 with
      | Z0 => S754_zero s
      | Zpos p => if e2 <=? 971 then S754_finite s p e2 else S754_infinity s
      | Zneg _ => S754_nan
      end.
Proof.
  intros HM HB HE HF Hcanon Hle.
  destruct (binary_round_aux_spec s M E HM)
    as (m1 & m2 & e1 & e2 & He1 & (Hm1 & Hexact & _ & Hceil) & He2 & Hm2 & Hfloor & _ & Hres).
  exists m2, e2.
  assert (Hm1le : m1 * 2 ^ (e1 - L) <= B * 2 ^ (F - L)).
  { destruct (Z.max_spec (fexp64 (Zdigits2 M + E) - E) 0) as [[Hk Hmax] | [Hk Hmax]].
    - rewrite Hmax in He1. replace e1 with E in * by lia.
      rewrite Hexact by lia. assumption.
    - rewrite Hmax in He1. destruct (Z.eq_dec (e1 - E) 0) as [H0 | Hne].
      { replace e1 with E in * by lia. rewrite Hexact by lia. assumption. }
      destruct M as [|p|p]; [|clear HM|lia].
      { assert (m1 <= 0) by (apply Hceil; lia).
        replace m1 with 0 by lia. pose proof (pow2_pos (F - L)). nia. }
      destruct B as [|q|q]; try lia. cbn [Zdigits2] in *. fold (digits p) in *.
      fold (digits q) in *.
      pose proof (digits_value_le p q E F L HE HF Hle) as Hdig.
      pose proof (fexp64_mono _ _ Hdig) as Hfexp.
      assert (He1F : e1 <= F) by lia.
      assert (Hceil' : m1 <= Zpos q * 2 ^ (F - e1)).
      { apply Hceil. rewrite <- Z.mul_assoc, <- pow2_split by lia.
        replace (F - e1 + (e1 - E)) with (F - E) by lia.
        pose proof (pow2_pos (E - L)).
        replace (F - L) with (F - E + (E - L)) in Hle by lia.
        rewrite pow2_split in Hle by lia. nia. }
      replace (F - L) with (F - e1 + (e1 - L)) by lia. rewrite pow2_split by lia.
      pose proof (pow2_pos (e1 - L)). nia. }
  assert (0 <= e1 - E) by lia. assert (0 <= e2 - e1) by lia.
  split; [assumption|]. split; [lia|]. split; [|assumption].
  replace (e2 - L) with (e2 - e1 + (e1 - L)) by lia. rewrite pow2_split by lia.
  pose proof (pow2_pos (e1 - L)). nia.
Qed.

Lemma Zpos_iter_xO (p d : positive) : Zpos (Pos.iter xO p d) = Zpos p * 2 ^ Zpos d.
Proof.
  induction d as [|d IH] using Pos.peano_ind.
  - simpl. lia.
  - rewrite Pos.iter_succ, Pos2Z.inj_xO, IH, Pos2Z.inj_succ, Z.pow_succ_r by lia. lia.
Qed.

(** Aligning a mantissa to a lower exponent keeps the value. *)
Lemma shl_align_spec (p : positive) (e e' : Z) (mz : positive) (ez : Z) :
  shl_align p e e' = (mz, ez) ->
  ez = Z.min e e' /\ Zpos mz = Zpos p * 2 ^ (e - ez).
Proof.
  unfold shl_align. destruct (e' - e) as [|d|d] eqn:Hd; intros H; injection H as <- <-.
  - rewrite Z.sub_diag. split; lia.
  - rewrite Z.sub_diag. split; lia.
  - split; [lia|]. rewrite Zpos_iter_xO. f_equal. f_equal. lia.
Qed.


Lemma unit_interval_SF (r : float) :
  unit_interval r = true ->
  (exists s, Prim2SF r = S754_zero s) \/
  (exists m e, Prim2SF r = S754_finite false m e /\ -1074 <= e <= -53 /\
               Zpos m < 2 ^ (- e) /\ Zpos m < 2 ^ 53).
Proof.
  unfold unit_interval. rewrite FloatAxioms.leb_spec, FloatAxioms.ltb_spec.
  pose proof (Prim2SF_valid r) as Hvalid.
  change (Prim2SF 0) with (S754_zero false).
  change (Prim2SF 1) with (S754_finite false 4503599627370496 (-52)).
  intros H. apply andb_prop in H as [H0 H1].
  destruct (Prim2SF r) as [s|s| |s m e] eqn:HR.
  - left. eauto.
  - exfalso. destruct s; discriminate.
  - discriminate.
  - right. destruct s; [discriminate|]. exists m, e. split; [reflexivity|].
    rewrite (SFltb_ticks _ _ (ticks m e) (ticks 4503599627370496 (-52))) in H1
      by (reflexivity || assumption).
    apply Z.ltb_lt in H1. pose proof (valid_finite _ _ _ Hvalid) as (He & Hd & Hnorm).
    unfold ticks in H1. change (-52 + 1074) with 1022 in H1.
    change (Zpos 4503599627370496) with (2 ^ 52) in H1.
    assert (He53 : e <= -53).
    { destruct (Z.le_gt_cases e (-53)) as [|Hgt]; [assumption|exfalso].
      pose proof (digits_bounds m) as [Hlo _]. rewrite Hnorm in Hlo by lia.
      change (53 - 1) with 52 in Hlo.
      assert (Hexp : 2 ^ 1022 <= 2 ^ (e + 1074)) by (apply Z.pow_le_mono_r; lia).
      pose proof (pow2_pos 52 ltac:(lia)). pose proof (pow2_pos 1022 ltac:(lia)).
      set (A := 2 ^ 52) in *. set (C := 2 ^ 1022) in *. set (D := 2 ^ (e + 1074)) in *.
      nia. }
    split; [lia|]. split.
    + rewrite <- pow2_split in H1 by lia.
      replace (52 + 1022) with (- e + (e + 1074)) in H1 by lia.
      rewrite (pow2_split (- e) (e + 1074)) in H1 by lia.
      pose proof (pow2_pos (e + 1074) ltac:(lia)). pose proof (pow2_pos (- e) ltac:(lia)).
      set (A := 2 ^ (- e)) in *. set (D := 2 ^ (e + 1074)) in *. nia.
    + pose proof (digits_bounds m) as [_ Hhi]. pose proof (digits_pos m).
      eapply Z.lt_le_trans; [exact Hhi|]. apply pow2_le. lia.
Qed.

(** ** The movement of a tracked bus *)

(** A rounded result that is bounded by a double below [2^971] is zero or
    finite. *)
Lemma bounded_result (s : bool) (m2 e2 B F L : Z) (x : spec_float) :
  0 <= m2 -> L <= e2 -> L <= F -> 1 <= B < 2 ^ 53 -> F <= 900 ->
  m2 * 2 ^ (e2 - L) <= B * 2 ^ (F - L) ->
  x = match m2 with
      | Z0 => S754_zero s
      | Zpos p => if e2 <=? 971 then S754_finite s p e2 else S754_infinity s
      | Zneg _ => S754_nan
      end ->
  x = S754_zero s \/
  exists p, m2 = Zpos p /\ x = S754_finite s p e2.
Proof.
  intros Hm2 He2 HF HB HF' Hle ->. destruct m2 as [|p|p]; [now left| |lia].
  right. exists p. split; [reflexivity|].
  destruct (Z.leb_spec e2 971) as [|Hbig]; [reflexivity|exfalso].
  assert (H1 : 2 ^ (e2 - L) <= Zpos p * 2 ^ (e2 - L)).
  { pose proof (pow2_pos (e2 - L) ltac:(lia)). nia. }
  assert (H2 : B * 2 ^ (F - L) < 2 ^ (53 + (F - L))).
  { rewrite pow2_split by lia. pose proof (pow2_pos (F - L) ltac:(lia)). nia. }
  assert (H3 : 2 ^ (e2 - L) < 2 ^ (53 + (F - L))) by lia.
  apply Z.pow_lt_mono_r_iff in H3; lia.
Qed.




(** ** A random index of an array *)

(** The double of an array length: normalised, and exact. *)
Lemma length_number_SF {A} (arr : list A) :
  (1 <= length arr)%nat -> Z.of_nat (length arr) < 2 ^ 32 ->
  exists mn en,
    Prim2SF (length_number arr) = S754_finite false mn en /\
    -52 <= en <= -21 /\ 2 ^ 52 <= Zpos mn < 2 ^ 53 /\
    Zpos mn = Z.of_nat (length arr) * 2 ^ (- en).
Proof.
  intros Hlo Hhi. unfold length_number. rewrite of_uint63_spec, Uint63.of_Z_spec.
  rewrite Z.mod_small by (split; [lia|]; eapply Z.lt_trans; [exact Hhi | reflexivity]).
  destruct (Z.of_nat (length arr)) as [|p|p] eqn:Hn; try lia.
  cbn [binary_normalize]. unfold binary_round.
  change (SpecFloat.fexp prec emax) with fexp64. fold (digits p).
  pose proof (digits_bounds p) as [Hplo Hphi]. pose proof (digits_pos p).
  assert (Hd : digits p <= 32) by (apply digits_le; assumption).
  destruct (shl_align p 0 _) as [mz ez] eqn:Halign.
  apply shl_align_spec in Halign as [Hez Hmz].
  assert (Hez' : ez = digits p - 53) by (unfold fexp64 in Hez; lia).
  rewrite Hez' in Hmz. replace (0 - (digits p - 53)) with (53 - digits p) in Hmz by lia.
  assert (Hmzlo : 2 ^ 52 <= Zpos mz).
  { rewrite Hmz. replace 52 with (digits p - 1 + (53 - digits p)) by lia.
    rewrite pow2_split by lia. pose proof (pow2_pos (53 - digits p) ltac:(lia)). nia. }
  assert (Hmzhi : Zpos mz < 2 ^ 53).
  { rewrite Hmz. replace 53 with (digits p + (53 - digits p)) at 2 by lia.
    rewrite pow2_split by lia. pose proof (pow2_pos (53 - digits p) ltac:(lia)). nia. }
  assert (Hdz : digits mz = 53).
  { pose proof (digits_le mz 53 Hmzhi). pose proof (digits_ge mz 52 Hmzlo). lia. }
  destruct (binary_round_aux_spec false (Zpos mz) ez ltac:(lia))
    as (m1 & m2 & e1 & e2 & He1 & (_ & Hexact & _) & He2 & _ & _ & Hsame & Hres).
  cbn [Zdigits2] in He1. fold (digits mz) in He1. rewrite Hdz in He1.
  assert (He1' : e1 = ez) by (unfold fexp64 in He1; lia). clear He1. subst e1.
  assert (Hm1' : m1 = Zpos mz) by (apply Hexact; lia). clear Hexact. subst m1.
  cbn [Zdigits2] in He2. fold (digits mz) in He2. rewrite Hdz in He2.
  assert (He2' : e2 = ez) by (unfold fexp64 in He2; lia). clear He2. subst e2.
  rewrite (Hsame eq_refl) in Hres. rewrite Hres.
  destruct (Z.leb_spec ez 971); [|lia].
  exists mz, ez. split; [reflexivity|]. split; [lia|]. split; [split; assumption|].
  rewrite Hmz. f_equal. f_equal. lia.
Qed.

(** The double [r * arr.length], for a random number [r] of [0, 1) and an
    array of at least one and fewer than [2^32] elements, has its floor
    among the indices of the array. *)
Lemma random_index {A} (arr : list A) (r : float) :
  unit_interval r = true ->
  (1 <= length arr)%nat -> Z.of_nat (length arr) < 2 ^ 32 ->
  exists z, floor_Z (r * length_number arr) = Some z /\ 0 <= z < Z.of_nat (length arr).
Proof.
  intros Hr Hlo Hhi. unfold floor_Z. rewrite FloatAxioms.mul_spec.
  destruct (length_number_SF arr Hlo Hhi) as (mn & en & -> & Hen & [Hmnlo Hmn53] & Hmn).
  set (n := Z.of_nat (length arr)) in *.
  destruct (unit_interval_SF r Hr) as [[s ->] | (m & e & -> & He & Hm & Hm53)].
  { exists 0. split; [reflexivity | lia]. }
  unfold SF64mul, SFmul. cbn [xorb]. rewrite Pos2Z.inj_mul.
  destruct (binary_round_aux_spec false (Zpos m * Zpos mn) (e + en) ltac:(lia))
    as (m1 & m2 & e1 & e2 & He1 & (Hm1 & Hexact & Hhalf & _) & He2 & Hm2 & Hfloor & _ & Hres).
  rewrite Hres. clear Hres.
  set (E := e + en) in *.
  pose proof (pow2_pos (- e) ltac:(lia)) as Hpe.
  (* the rounded product, scaled by 2^-E, stays strictly below the length *)
  assert (Hk1 : 0 <= e1 - E) by lia.
  assert (Hm1lt : m1 * 2 ^ (e1 - E) < Zpos mn * 2 ^ (- e)).
  { destruct (Z.eq_dec (e1 - E) 0) as [H0 | Hne].
    - rewrite H0, Z.pow_0_r, Hexact by assumption. nia.
    - assert (Hk : 1 <= e1 - E) by lia. specialize (Hhalf Hk).
      assert (Hsmall : 2 ^ (e1 - E) < 2 * Zpos mn).
      { replace (e1 - E) with (1 + (e1 - E - 1)) by lia. rewrite pow2_split by lia.
        change (2 ^ 1) with 2.
        enough (2 ^ (e1 - E - 1) < Zpos mn) by lia.
        assert (Hcases : e1 - E = Zdigits2 (Zpos m * Zpos mn) - 53 \/ e1 - E <= 52)
          by (unfold fexp64 in He1; lia).
        destruct Hcases as [Hdig | Hsub].
        + rewrite <- Pos2Z.inj_mul in Hdig. cbn [Zdigits2] in Hdig.
          fold (digits (m * mn)) in Hdig. rewrite Hdig in Hk |- *.
          pose proof (digits_bounds (m * mn)) as [Hlow _]. rewrite Pos2Z.inj_mul in Hlow.
          replace (digits (m * mn) - 1) with (53 + (digits (m * mn) - 53 - 1)) in Hlow by lia.
          rewrite pow2_split in Hlow by lia.
          pose proof (pow2_pos (digits (m * mn) - 53 - 1) ltac:(lia)).
          pose proof (pow2_pos 53 ltac:(lia)).
          set (a := 2 ^ (digits (m * mn) - 53 - 1)) in *. set (b := 2 ^ 53) in *. nia.
        + eapply Z.le_lt_trans; [apply (pow2_le (e1 - E - 1) 51); lia|].
          eapply Z.lt_le_trans; [|exact Hmnlo]. apply Z.pow_lt_mono_r; lia. }
      set (a := 2 ^ (e1 - E)) in *. set (b := 2 ^ (- e)) in *. nia. }
  assert (Hm2lt : m2 * 2 ^ (e2 - E) < n * 2 ^ (- E)).
  { assert (He21 : 0 <= e2 - e1) by lia.
    replace (e2 - E) with (e2 - e1 + (e1 - E)) by lia. rewrite pow2_split by lia.
    replace (n * 2 ^ (- E)) with (Zpos mn * 2 ^ (- e)).
    2:{ subst E. rewrite Hmn. replace (- (e + en)) with (- en + - e) by lia.
        rewrite pow2_split by lia. lia. }
    pose proof (pow2_pos (e1 - E) ltac:(lia)). rewrite Z.mul_assoc.
    eapply Z.le_lt_trans; [apply Z.mul_le_mono_nonneg_r; [lia | exact Hfloor]|].
    exact Hm1lt. }
  destruct m2 as [|q|q]; [exists 0; split; [reflexivity | lia] | | lia].
  assert (HE : E <= 0) by (subst E; lia).
  assert (He2E : 0 <= e2 - E) by lia.
  assert (He2small : e2 < 32).
  { assert (H1 : 2 ^ (e2 - E) <= Zpos q * 2 ^ (e2 - E)).
    { pose proof (pow2_pos (e2 - E) ltac:(lia)).
      rewrite <- (Z.mul_1_l (2 ^ (e2 - E))) at 1. apply Z.mul_le_mono_nonneg_r; lia. }
    assert (H2 : n * 2 ^ (- E) < 2 ^ (32 + - E)).
    { rewrite pow2_split by lia. apply Z.mul_lt_mono_pos_r; [apply pow2_pos; lia|].
      exact Hhi. }
    assert (H3 : 2 ^ (e2 - E) < 2 ^ (32 + - E)) by lia.
    apply Z.pow_lt_mono_r_iff in H3; lia. }
  destruct (Z.leb_spec e2 971); [|lia].
  exists (Z.shiftl (Zpos q) e2). split; [reflexivity|].
  destruct (Z.le_gt_cases 0 e2) as [Hpos | Hneg].
  - rewrite Z.shiftl_mul_pow2 by assumption.
    replace (e2 - E) with (e2 + - E) in Hm2lt by lia. rewrite pow2_split in Hm2lt by lia.
    pose proof (pow2_pos (- E) ltac:(lia)). pose proof (pow2_pos e2 Hpos).
    split; [apply Z.mul_nonneg_nonneg; lia|].
    rewrite Z.mul_assoc in Hm2lt. apply (mul_lt_cancel_r _ _ (2 ^ (- E))); assumption.
  - rewrite Z.shiftl_div_pow2 by lia.
    pose proof (pow2_pos (- e2) ltac:(lia)) as Hp.
    split; [apply Z.div_pos; lia|].
    apply Z.div_lt_upper_bound; [assumption|].
    replace (- E) with (- e2 + (e2 - E)) in Hm2lt by lia.
    rewrite pow2_split in Hm2lt by lia.
    pose proof (pow2_pos (e2 - E) ltac:(lia)).
    rewrite Z.mul_assoc in Hm2lt. apply mul_lt_cancel_r in Hm2lt; [lia | assumption].
Qed.

(** ** Signs *)

Lemma binary_round_aux_opp (s : bool) (m e : Z) (l : SpecFloat.location) :
  binary_round_aux prec emax (negb s) m e l = SFopp (binary_round_aux prec emax s m e l).
Proof.
  unfold binary_round_aux. destruct (shr_fexp _ _ _ _ _) as [mrs' e'].
  destruct (shr_fexp _ _ _ _ _) as [mrs'' e'']. destruct (shr_m mrs''); try reflexivity.
  now destruct (e'' <=? emax - prec).
Qed.

Lemma SFopp_involutive (x : spec_float) : SFopp (SFopp x) = x.
Proof. destruct x as [s|s| |s m e]; simpl; now rewrite ?negb_involutive. Qed.

Lemma SFmul_opp_l (x y : spec_float) :
  SFmul prec emax (SFopp x) y = SFopp (SFmul prec emax x y).
Proof.
  destruct x as [sx|sx| |sx mx ex], y as [sy|sy| |sy my ey]; cbn [SFopp SFmul];
    try reflexivity; try (now destruct sx, sy).
  rewrite <- binary_round_aux_opp. f_equal. now destruct sx, sy.
Qed.

Lemma SFmul_comm (x y : spec_float) : SFmul prec emax x y = SFmul prec emax y x.
Proof.
  destruct x as [sx|sx| |sx mx ex], y as [sy|sy| |sy my ey]; cbn [SFmul];
    try reflexivity; try (now rewrite xorb_comm).
  now rewrite xorb_comm, Pos.mul_comm, Z.add_comm.
Qed.

Lemma SFdiv_opp_l (x y : spec_float) :
  SFdiv prec emax (SFopp x) y = SFopp (SFdiv prec emax x y).
Proof.
  destruct x as [sx|sx| |sx mx ex], y as [sy|sy| |sy my ey]; cbn [SFopp SFdiv];
    try reflexivity; try (now destruct sx, sy).
  destruct (SFdiv_core_binary _ _ _ _ _ _) as [[mz ez] lz].
  rewrite <- binary_round_aux_opp. f_equal. now destruct sx, sy.
Qed.

Lemma binary_normalize_opp (m e : Z) :
  m <> 0 ->
  binary_normalize prec emax (- m) e false = SFopp (binary_normalize prec emax m e false).
Proof.
  intros Hm. destruct m as [|p|p]; [contradiction| |].
  - change (binary_round prec emax true p e = SFopp (binary_round prec emax false p e)).
    unfold binary_round. destruct (shl_align _ _ _) as [mz ez].
    apply (binary_round_aux_opp false).
  - change (binary_round prec emax false p e = SFopp (binary_round prec emax true p e)).
    unfold binary_round. destruct (shl_align _ _ _) as [mz ez].
    rewrite (binary_round_aux_opp false). now rewrite SFopp_involutive.
Qed.

(** Subtraction the other way round gives the opposite, unless both
    differences are the zero [+0]. *)
Lemma SFsub_swap (x y : spec_float) :
  SFsub prec emax x y = SFopp (SFsub prec emax y x) \/
  SFsub prec emax x y = S754_zero false /\ SFsub prec emax y x = S754_zero false.
Proof.
  destruct x as [sx|sx| |sx mx ex], y as [sy|sy| |sy my ey]; cbn [SFsub SFopp];
    try (now left); try (destruct sx, sy; cbn; auto; fail);
    try (left; now rewrite ?negb_involutive).
  rewrite (Z.min_comm ey ex).
  set (a := cond_Zopp sx (Zpos (fst (shl_align mx ex (Z.min ex ey))))).
  set (b := cond_Zopp sy (Zpos (fst (shl_align my ey (Z.min ex ey))))).
  destruct (Z.eq_dec (b - a) 0) as [H0 | Hne].
  - right. replace (a - b) with 0 by lia. rewrite H0. now split.
  - left. replace (a - b) with (- (b - a)) by lia. now apply binary_normalize_opp.
Qed.

Section FloatSigns.
Local Open Scope float_scope.

Lemma mul_opp_l (x y : float) : (- x) * y = - (x * y).
Proof.
  apply Prim2SF_inj.
  rewrite FloatAxioms.mul_spec, !FloatAxioms.opp_spec, FloatAxioms.mul_spec.
  apply SFmul_opp_l.
Qed.

Lemma mul_comm (x y : float) : x * y = y * x.
Proof. apply Prim2SF_inj. rewrite !FloatAxioms.mul_spec. apply SFmul_comm. Qed.

Lemma div_opp_l (x y : float) : (- x) / y = - (x / y).
Proof.
  apply Prim2SF_inj.
  rewrite FloatAxioms.div_spec, !FloatAxioms.opp_spec, FloatAxioms.div_spec.
  apply SFdiv_opp_l.
Qed.

Lemma opp_involutive (x : float) : - - x = x.
Proof. apply Prim2SF_inj. rewrite !FloatAxioms.opp_spec. apply SFopp_involutive. Qed.

Lemma mul_opp_opp (x : float) : (- x) * (- x) = x * x.
Proof.
  now rewrite mul_opp_l, (mul_comm x (- x)), mul_opp_l, opp_involutive.
Qed.

Lemma sub_swap (x y : float) : x - y = - (y - x) \/ x - y = 0 /\ y - x = 0.
Proof.
  destruct (SFsub_swap (Prim2SF x) (Prim2SF y)) as [H | [H1 H2]]; [left | right; split];
    apply Prim2SF_inj; rewrite ?FloatAxioms.opp_spec, !FloatAxioms.sub_spec; assumption.
Qed.

End FloatSigns.

(** ** Finite doubles *)

Lemma is_finite_SF (x : float) : PrimFloat.is_finite x = true -> SFfinite (Prim2SF x).
Proof.
  unfold PrimFloat.is_finite, PrimFloat.is_nan, PrimFloat.is_infinity.
  rewrite !FloatAxioms.eqb_spec, FloatAxioms.abs_spec.
  change (Prim2SF infinity) with (S754_infinity false).
  destruct (Prim2SF x) as [?|[]| |? ? ?]; cbn; intros; try discriminate; exact I.
Qed.

Lemma sub_self (x : float) : SFfinite (Prim2SF x) -> (x - x)%float = 0%float.
Proof.
  intros Hx. apply Prim2SF_inj. rewrite FloatAxioms.sub_spec.
  change (Prim2SF 0) with (S754_zero false). unfold SF64sub, SFsub.
  destruct (Prim2SF x) as [[]|?| |s m e]; try contradiction; try reflexivity.
  now rewrite Z.sub_diag.
Qed.

(** The square of a double of [-1, 1] is [+0] or a positive finite
    double: it neither overflows nor is NaN. *)
Lemma square_small (c : float) :
  PrimFloat.leb (abs c) 1 = true ->
  Prim2SF (c * c) = S754_zero false \/
  exists m e, Prim2SF (c * c) = S754_finite false m e.
Proof.
  rewrite FloatAxioms.leb_spec, FloatAxioms.abs_spec, FloatAxioms.mul_spec.
  pose proof (Prim2SF_valid c) as Hvalid. pose proof (Prim2SF_valid (abs c)) as Hvabs.
  rewrite FloatAxioms.abs_spec in Hvabs.
  change (Prim2SF 1) with (S754_finite false 4503599627370496 (-52)).
  destruct (Prim2SF c) as [s|s| |s m e]; try discriminate.
  - intros _. left. cbn. now rewrite xorb_nilpotent.
  - cbn [SFabs] in *. intros Hle.
    rewrite (SFleb_ticks _ _ (ticks m e) (ticks 4503599627370496 (-52))) in Hle
      by (reflexivity || assumption).
    apply Z.leb_le in Hle. pose proof (valid_finite _ _ _ Hvalid) as (He & _).
    unfold ticks in Hle. change (Zpos 4503599627370496) with (2 ^ 52) in Hle.
    change (-52 + 1074) with 1022 in Hle. rewrite <- pow2_split in Hle by lia.
    change (52 + 1022) with 1074 in Hle.
    unfold SF64mul, SFmul. rewrite xorb_nilpotent, Pos2Z.inj_mul.
    assert (Hrange : 1 <= 2 ^ 52 < 2 ^ 53).
    { split; [apply (Z.pow_le_mono_r 2 0 52) | apply Z.pow_lt_mono_r]; lia. }
    destruct (round_le false (Zpos m * Zpos m) (e + e) (2 ^ 52) (-52) (-2148))
      as (m2 & e2 & Hm2 & He2 & Hbound & Hres); try lia; try reflexivity.
    { replace (e + e - -2148) with ((e + 1074) + (e + 1074)) by lia.
      rewrite pow2_split by lia. rewrite <- (pow2_split 52 (-52 - -2148)) by lia.
      change (52 + (-52 - -2148)) with (1074 + 1074). rewrite (pow2_split 1074 1074) by lia.
      pose proof (pow2_pos (e + 1074) ltac:(lia)). pose proof (pow2_pos 1074 ltac:(lia)).
      set (a := 2 ^ (e + 1074)) in *. set (b := 2 ^ 1074) in *. nia. }
    destruct (bounded_result false m2 e2 (2 ^ 52) (-52) (-2148) _
                Hm2 He2 ltac:(lia) Hrange ltac:(lia) Hbound Hres) as [Hz | (q & _ & Hq)];
      [left | right]; eauto.
Qed.

Lemma mul_zero_r (p : float) :
  (Prim2SF p = S754_zero false \/ exists m e, Prim2SF p = S754_finite false m e) ->
  (p * 0)%float = 0%float.
Proof.
  intros Hp. apply Prim2SF_inj. rewrite FloatAxioms.mul_spec.
  change (Prim2SF 0) with (S754_zero false).
  now destruct Hp as [-> | (m & e & ->)].
Qed.

(** ** Empty collections *)

(** C2, as the code has it.  On an empty stop collection [findNearestStop]
    returns no stop: it completes by throwing, and what is thrown is the
    TypeError of the reduction itself (the code has no guard of its own
    and no EmptyIndex value). *)
Theorem findNearestStop_empty {math : MathBuiltins} (location : Location) :
  findNearestStop [] location = Throw TypeError /\
  (forall stop, findNearestStop [] location <> Normal stop).
Proof. split; [reflexivity | discriminate]. Qed.

(** C2, as stated, fails: at the start point of the demonstration the
    failure on an empty collection is the TypeError, not EmptyIndex. *)
Lemma findNearestStop_empty_not_EmptyIndex :
  findNearestStop (math := series_math) [] demo_start = Throw TypeError /\
  findNearestStop (math := series_math) [] demo_start <> Throw EmptyIndex.
Proof. split; [reflexivity | discriminate]. Qed.

Section Recommend.
Context {math : MathBuiltins} {host : Host}.

Lemma recommendRoute_stops (routes : list Route) (first : Stop) (rest : list Stop)
    (start end_ : Location) (st : State) :
  exists (startStop_ endStop_ : Stop) (st' : State),
    findNearestStop (first :: rest) start = Normal startStop_ /\
    findNearestStop (first :: rest) end_ = Normal endStop_ /\
    recommendRoute routes (first :: rest) start end_ st =
      (Normal {| route := at_floor routes
                   (Math_random (random_calls st) * length_number routes)%float;
                 startStop := startStop_; endStop := endStop_;
                 estimatedDuration :=
                   Math_round (calculateDistance start end_ / 30 * 60)%float |},
       st').
Proof. repeat eexists. Qed.

Lemma at_floor_nil {A} (x : float) : at_floor (@nil A) x = None.
Proof.
  unfold at_floor. destruct (floor_Z x) as [z|]; [|reflexivity].
  destruct (z <? 0); [reflexivity|]. now destruct (Z.to_nat z).
Qed.

End Recommend.

(** C3, as the code has it.  With an empty stop collection [recommendRoute]
    always fails, by the TypeError of the reduction in [findNearestStop],
    whatever the routes are, and leaves the state as it was; with a
    non-empty stop collection it never fails: in particular with an empty
    route collection it returns a recommendation whose route is
    undefined. *)
Theorem recommendRoute_failures {math : MathBuiltins} {host : Host}
    (routes : list Route) (start end_ : Location) (st : State) :
  recommendRoute routes [] start end_ st = (Throw TypeError, st) /\
  (forall first rest, exists r st',
     recommendRoute routes (first :: rest) start end_ st = (Normal r, st')) /\
  (forall first rest, exists r st',
     recommendRoute [] (first :: rest) start end_ st = (Normal r, st') /\
     route r = None).
Proof.
  split; [reflexivity|]. split; intros first rest.
  - destruct (recommendRoute_stops routes first rest start end_ st)
      as (s & e & st' & _ & _ & Hrun). eauto.
  - destruct (recommendRoute_stops [] first rest start end_ st)
      as (s & e & st' & _ & _ & Hrun).
    eexists _, st'. split; [exact Hrun|]. simpl. apply at_floor_nil.
Qed.

(** C3, as stated, fails: with no routes and the two stops of the source,
    the recommendation for the demonstration's points is returned, with an
    undefined route, instead of an EmptyCatalog failure; and with no stops
    the failure is not EmptyIndex. *)
Lemma recommendRoute_no_EmptyCatalog :
  (exists r, fst (recommendRoute (math := series_math) (host := demo_host)
                    [] mock_stops demo_start demo_end initial) = Normal r /\
             route r = None) /\
  fst (recommendRoute (math := series_math) (host := demo_host)
         mock_routes [] demo_start demo_end initial) <> Throw EmptyIndex.
Proof.
  split; [|discriminate].
  eexists. split; [reflexivity|]. simpl. apply at_floor_nil.
Qed.

(** ** Nearest-stop resolution does not depend on the random choice *)

(** C10.  [findNearestStop] consults neither the host nor the state: its
    result is a function of the stop collection and the query point.  In
    [recommendRoute] the start and end stops (or the failure) are those
    that [findNearestStop] gives for the start and the end point: they are
    the same for every host (every sequence of random numbers), every
    route collection and every state, whichever route is selected. *)
Theorem recommendRoute_stops_deterministic {math : MathBuiltins}
    (stops : list Stop) (start end_ : Location) :
  forall (host : Host) (routes : list Route) (st : State),
    boundary_stops (fst (recommendRoute routes stops start end_ st)) =
    match findNearestStop stops start, findNearestStop stops end_ with
    | Normal startStop_, Normal endStop_ => Normal (startStop_, endStop_)
    | Throw e, _ => Throw e
    | _, Throw e => Throw e
    end.
Proof.
  intros host routes st. destruct stops as [|first rest]; [reflexivity|].
  destruct (recommendRoute_stops routes first rest start end_ st)
    as (s & e & st' & Hs & He & Hrun).
  now rewrite Hrun, Hs, He.
Qed.

(** ** Distance *)

Section Distance.
Context {math : MathBuiltins}.
Local Open Scope float_scope.

Lemma calculateDistance_hav (loc1 loc2 : Location) :
  calculateDistance loc1 loc2 =
    let a := hav (lat loc2 - lat loc1) +
             Math_cos (lat loc1 * Math_PI / 180) * Math_cos (lat loc2 * Math_PI / 180) *
             Math_sin ((lon loc2 - lon loc1) * Math_PI / 180 / 2) *
             Math_sin ((lon loc2 - lon loc1) * Math_PI / 180 / 2) in
    6371 * (2 * Math_atan2 (Math_sqrt a) (Math_sqrt (1 - a))).
Proof. reflexivity. Qed.

Hypothesis sin_odd : forall x, Math_sin (- x) = - Math_sin x.

Lemma sin_half_swap (x y : float) :
  Math_sin ((x - y) * Math_PI / 180 / 2) = - Math_sin ((y - x) * Math_PI / 180 / 2) \/
  Math_sin ((x - y) * Math_PI / 180 / 2) = Math_sin ((y - x) * Math_PI / 180 / 2).
Proof.
  destruct (sub_swap x y) as [-> | [-> ->]]; [left | now right].
  now rewrite mul_opp_l, !div_opp_l, sin_odd.
Qed.

Lemma hav_swap (x y : float) : hav (x - y) = hav (y - x).
Proof.
  unfold hav. destruct (sin_half_swap x y) as [-> | ->]; [|reflexivity].
  apply mul_opp_opp.
Qed.

Lemma mul_sin_swap (c x y : float) :
  c * Math_sin ((x - y) * Math_PI / 180 / 2) * Math_sin ((x - y) * Math_PI / 180 / 2) =
  c * Math_sin ((y - x) * Math_PI / 180 / 2) * Math_sin ((y - x) * Math_PI / 180 / 2).
Proof.
  destruct (sin_half_swap x y) as [-> | ->]; [|reflexivity].
  set (s := Math_sin _).
  rewrite (mul_comm c (- s)), mul_opp_l, mul_opp_l, (mul_comm (s * c) (- s)), mul_opp_l.
  now rewrite opp_involutive, (mul_comm s c), (mul_comm s (c * s)).
Qed.

Lemma calculateDistance_swap (a b : Location) :
  calculateDistance a b = calculateDistance b a.
Proof.
  rewrite !calculateDistance_hav. cbv zeta.
  rewrite (hav_swap (lat b) (lat a)).
  rewrite (mul_sin_swap _ (lon b) (lon a)).
  now rewrite (mul_comm (Math_cos (lat a * Math_PI / 180))).
Qed.

Hypothesis sin_zero : Math_sin 0 = 0.
Hypothesis atan2_zero : Math_atan2 0 1 = 0.

Lemma finite_coordinate_SF (l : Location) :
  finite_coordinate l = true -> SFfinite (Prim2SF (lat l)) /\ SFfinite (Prim2SF (lon l)).
Proof.
  unfold finite_coordinate. intros H. apply andb_prop in H as [Hlat Hlon].
  split; now apply is_finite_SF.
Qed.

Lemma calculateDistance_same (a : Location) :
  finite_coordinate a = true -> cos_in_range a = true -> calculateDistance a a = 0.
Proof.
  intros Hwf Hcos. destruct (finite_coordinate_SF a Hwf) as [Hlat Hlon].
  rewrite calculateDistance_hav. cbv zeta. unfold hav.
  rewrite (sub_self _ Hlat), (sub_self _ Hlon).
  change (0 * Math_PI / 180 / 2) with 0. rewrite sin_zero.
  rewrite (mul_zero_r _ (square_small _ Hcos)).
  change (0 * 0 + 0 * 0) with 0. change (Math_sqrt 0) with 0.
  change (Math_sqrt (1 - 0)) with 1. rewrite atan2_zero. reflexivity.
Qed.

End Distance.

(** C5.  Over any implementation of the trigonometric builtins in which
    the sine is odd, [calculateDistance a b] and [calculateDistance b a]
    are the same double, so they compare equal with [==] unless the
    result is NaN; and when moreover [sin(+0)] is [+0], [atan2(+0, 1)] is
    [+0] and the cosine of the latitude of [a] is within [-1, 1], the
    distance from a coordinate [a] with finite components (as those of
    the data model are) to itself is [+0]. *)
Theorem calculateDistance_symmetric_zero {math : MathBuiltins} (a b : Location) :
  (forall x, Math_sin (- x) = (- Math_sin x)%float) ->
  Math_sin 0 = 0%float -> Math_atan2 0 1 = 0%float ->
  finite_coordinate a = true -> cos_in_range a = true ->
  calculateDistance a b = calculateDistance b a /\
  (PrimFloat.is_nan (calculateDistance a b) = false ->
   PrimFloat.eqb (calculateDistance a b) (calculateDistance b a) = true) /\
  calculateDistance a a = 0%float /\
  PrimFloat.eqb (calculateDistance a a) 0 = true.
Proof.
  intros Hodd Hsin Hatan Hwf Hcos.
  pose proof (calculateDistance_swap Hodd a b) as Hswap.
  pose proof (calculateDistance_same Hsin Hatan a Hwf Hcos) as Hsame.
  repeat split; try assumption.
  - rewrite <- Hswap. unfold PrimFloat.is_nan. intros Hnan.
    now apply negb_false_iff in Hnan.
  - now rewrite Hsame.
Qed.

(** The sine of the series implementation is odd. *)
Lemma series_sin_odd (x : float) :
  Math_sin (MathBuiltins := series_math) (- x) =
  (- Math_sin (MathBuiltins := series_math) x)%float.
Proof. cbn. now rewrite mul_opp_opp, mul_opp_l. Qed.

(** C5 at the two points of the demonstration, over the series
    implementation. *)
Lemma calculateDistance_symmetric_zero_witness :
  calculateDistance (math := series_math) demo_start demo_end =
    calculateDistance (math := series_math) demo_end demo_start /\
  calculateDistance (math := series_math) demo_start demo_start = 0%float.
Proof.
  destruct (calculateDistance_symmetric_zero (math := series_math) demo_start demo_end
              series_sin_odd eq_refl eq_refl eq_refl eq_refl) as (Hswap & _ & Hsame & _).
  split; [exact Hswap | exact Hsame].
Defined.

(** C4.  For every pair of points and every non-empty stop collection
    [recommendRoute] produces a recommendation whose [estimatedDuration] is
    [Math.round(calculateDistance(start, end) / 30 * 60)]; when the two
    points are the same coordinate with finite components, and the
    builtins give [sin(+0) = +0], [atan2(+0, 1) = +0] and a cosine of its
    latitude within [-1, 1], that duration is [0]. *)
Theorem recommendRoute_estimatedDuration {math : MathBuiltins} {host : Host}
    (routes : list Route) (first : Stop) (rest : list Stop)
    (start end_ : Location) (st : State) :
  exists r st',
    recommendRoute routes (first :: rest) start end_ st = (Normal r, st') /\
    estimatedDuration r = Math_round (calculateDistance start end_ / 30 * 60)%float /\
    (start = end_ ->
     Math_sin 0 = 0%float -> Math_atan2 0 1 = 0%float ->
     finite_coordinate start = true -> cos_in_range start = true ->
     estimatedDuration r = 0%float).
Proof.
  destruct (recommendRoute_stops routes first rest start end_ st)
    as (s & e & st' & _ & _ & Hrun).
  eexists _, st'. split; [exact Hrun|]. split; [reflexivity|].
  intros <- Hsin Hatan Hwf Hcos. cbn [estimatedDuration].
  now rewrite (calculateDistance_same Hsin Hatan start Hwf Hcos).
Qed.

(** C4 at a trip from the start point of the demonstration to itself, over
    the data of the source. *)
Lemma recommendRoute_estimatedDuration_witness :
  exists r st',
    recommendRoute (math := series_math) (host := demo_host)
      mock_routes mock_stops demo_start demo_start initial = (Normal r, st') /\
    estimatedDuration r = 0%float.
Proof.
  destruct (recommendRoute_estimatedDuration (math := series_math) (host := demo_host)
              mock_routes (hd (Build_Stop "" "" 0 0) mock_stops) (tl mock_stops)
              demo_start demo_start initial)
    as (r & st' & Hrun & _ & Hzero).
  exists r, st'. split; [exact Hrun|].
  exact (Hzero eq_refl eq_refl eq_refl eq_refl eq_refl).
Defined.

(** ** Reports *)

Section Reports.
Context {host : Host}.

Lemma within_hour_run (report : Report) (st : State) :
  within_hour report st =
    (Normal (Date_now (now_calls st) - timestamp report <? 3600000), after_now 1 st).
Proof. reflexivity. Qed.

Lemma filter_within_hour (now_ : Z) (rs : list Report) (st : State) :
  (forall k, (now_calls st <= k < now_calls st + length rs)%nat -> Date_now k = now_) ->
  filter_with within_hour rs st =
    (Normal (filter (fun report => now_ - timestamp report < 3600000) rs),
     after_now (length rs) st).
Proof.
  revert st. induction rs as [|report rs IH]; intros st Hclock.
  - now destruct st.
  - cbn [filter_with]. unfold bind. rewrite within_hour_run. cbn [length] in Hclock.
    rewrite IH by (intros k Hk; apply Hclock; simpl in *; lia).
    rewrite (Hclock (now_calls st)) by lia. unfold ret.
    rewrite filter_cons. f_equal.
    + destruct (Z.ltb_spec (now_ - timestamp report) 3600000);
        [rewrite decide_True | rewrite decide_False]; auto; lia.
    + unfold after_now. simpl. f_equal. lia.
Qed.

End Reports.

(** C8.  Let the clock read [now_] each time the handler of [/api/reports]
    consults it.  Then the handler answers with exactly the stored reports
    whose age [now_ - timestamp] is strictly under 3600000 ms, in the order
    of insertion, and the stored reports are afterwards what they were.  A
    stored report made at [now_ - 3600001] is left out and one made at
    [now_ - 3599999] is included. *)
Theorem recentReports_last_hour {host : Host} (st : State) (now_ : Z) :
  (forall k, (now_calls st <= k < now_calls st + length (reports st))%nat ->
     Date_now k = now_) ->
  let recent := filter (fun report => now_ - timestamp report < 3600000) (reports st) in
  fst (recentReports st) = Normal recent /\
  reports (snd (recentReports st)) = reports st /\
  (forall report, report ∈ recent <->
     report ∈ reports st /\ now_ - timestamp report < 3600000) /\
  sublist recent (reports st) /\
  (forall report, report ∈ reports st ->
     timestamp report = now_ - 3600001 -> report ∉ recent) /\
  (forall report, report ∈ reports st ->
     timestamp report = now_ - 3599999 -> report ∈ recent).
Proof.
  intros Hclock recent.
  assert (Hrun : recentReports st = (Normal recent, after_now (length (reports st)) st)).
  { unfold recentReports, bind at 1, get_reports.
    apply (filter_within_hour now_ (reports st) st Hclock). }
  assert (Hmem : forall report, report ∈ recent <->
            report ∈ reports st /\ now_ - timestamp report < 3600000).
  { intros report. unfold recent. rewrite list_elem_of_filter. tauto. }
  rewrite Hrun. repeat split; try (apply Hmem; assumption).
  - apply sublist_filter.
  - intros report Hin Hts Hrecent. apply Hmem in Hrecent. lia.
  - intros report Hin Hts. apply Hmem. split; [assumption | lia].
Qed.

(** C8 at three stored reports and a clock that reads 1726000000000. *)
Lemma recentReports_last_hour_witness :
  fst (recentReports (host := demo_host) three_reports) =
    Normal (skipn 1 (reports three_reports)) /\
  reports (snd (recentReports (host := demo_host) three_reports)) =
    reports three_reports.
Proof.
  assert (Hclock : forall k,
            (now_calls three_reports <= k <
             now_calls three_reports + length (reports three_reports))%nat ->
            Date_now (Host := demo_host) k = 1726000000000).
  { intros k [_ Hk]. change (1726000000000 + Z.of_nat (k / 8) = 1726000000000).
    cbn in Hk. rewrite Nat.div_small by lia. reflexivity. }
  destruct (recentReports_last_hour (host := demo_host) three_reports 1726000000000 Hclock)
    as (Hrun & Hlog & _).
  split; [exact Hrun | exact Hlog].
Defined.

(** ** Simulated bus locations *)

Section Bus.
Context {host : Host}.
Variable stops : list Stop.

Lemma at_floor_random {A} (arr : list A) (r : float) :
  unit_interval r = true -> arr <> [] -> Z.of_nat (length arr) < 2 ^ 32 ->
  exists x, at_floor arr (r * length_number arr) = Some x /\ x ∈ arr.
Proof.
  intros Hr Hne Hlen.
  assert (Hpos : (1 <= length arr)%nat) by (destruct arr; [contradiction | cbn; lia]).
  destruct (random_index arr r Hr Hpos Hlen) as (z & Hz & Hrange).
  unfold at_floor. rewrite Hz. destruct (Z.ltb_spec z 0) as [|_]; [lia|].
  destruct (nth_error arr (Z.to_nat z)) as [x|] eqn:Hx.
  - exists x. split; [reflexivity|]. apply list_elem_of_In. eapply nth_error_In, Hx.
  - apply nth_error_None in Hx. lia.
Qed.

Lemma own_ids_elem (routes : list Route) (route : Route) :
  own_ids routes = true -> route ∈ routes -> inherited (route_id route) = false.
Proof.
  unfold own_ids. rewrite forallb_forall. intros Hown Hin.
  apply negb_true_iff, Hown, list_elem_of_In, Hin.
Qed.

Lemma own_ids_cons (route : Route) (routes : list Route) :
  own_ids (route :: routes) = true ->
  inherited (route_id route) = false /\ own_ids routes = true.
Proof.
  unfold own_ids. cbn [forallb]. intros H. apply andb_prop in H as [H1 H2].
  split; [now apply negb_true_iff | exact H2].
Qed.

Lemma poll_uninitialized (route : Route) (st : State) :
  busLocations st !! route_id route = None ->
  inherited (route_id route) = false ->
  unit_interval (Math_random (random_calls st)) = true ->
  stops <> [] -> Z.of_nat (length stops) < 2 ^ 32 ->
  exists stop, stop ∈ stops /\
    poll stops route st =
      (Normal tt, moved (<[route_id route := position stop]> (busLocations st)) 1 st).
Proof.
  intros Hnone Hown Hr Hne Hlen.
  destruct (at_floor_random stops _ Hr Hne Hlen) as (stop & Hstop & Hin).
  exists stop. split; [assumption|].
  unfold poll, bind, get_busLocations. rewrite Hnone, Hown. unfold random.
  cbn [random_calls busLocations]. rewrite Hstop. reflexivity.
Qed.

Lemma poll_tracking (route : Route) (st : State) (bus : Location) :
  busLocations st !! route_id route = Some bus ->
  poll stops route st =
    (Normal tt,
     moved (<[route_id route :=
               {| lat := (lat bus + movement (Math_random (random_calls st)))%float;
                  lon := (lon bus + movement (Math_random (S (random_calls st))))%float |}]>
              (busLocations st)) 2 st).
Proof.
  intros Hsome. unfold poll, bind, get_busLocations. rewrite Hsome. reflexivity.
Qed.

(** A poll of a route whose id names an inherited property and which has
    no entry: two draws, and nothing else. *)
Lemma poll_inherited (route : Route) (st : State) :
  busLocations st !! route_id route = None ->
  inherited (route_id route) = true ->
  poll stops route st = (Normal tt, moved (busLocations st) 2 st).
Proof.
  intros Hnone Hin. unfold poll, bind, get_busLocations. rewrite Hnone, Hin.
  reflexivity.
Qed.

(** One poll, whichever branch it takes. *)
Lemma poll_runs (route : Route) (st : State) :
  random_ok -> stops <> [] -> Z.of_nat (length stops) < 2 ^ 32 ->
  inherited (route_id route) = false ->
  exists st',
    poll stops route st = (Normal tt, st') /\
    dom (busLocations st') = {[route_id route]} ∪ dom (busLocations st) /\
    (random_calls st < random_calls st')%nat.
Proof.
  intros Hrandom Hne Hlen Hown.
  destruct (busLocations st !! route_id route) as [bus|] eqn:Hbus.
  - eexists. split; [apply (poll_tracking route st bus Hbus)|].
    cbn. split; [apply dom_insert_L | lia].
  - destruct (poll_uninitialized route st Hbus Hown (Hrandom _) Hne Hlen)
      as (stop & _ & Hrun).
    eexists. split; [exact Hrun|]. cbn. split; [apply dom_insert_L | lia].
Qed.



Lemma forEach_poll_runs (routes : list Route) (st : State) :
  random_ok -> stops <> [] -> Z.of_nat (length stops) < 2 ^ 32 ->
  own_ids routes = true ->
  exists st',
    forEach (poll stops) routes st = (Normal tt, st') /\
    dom (busLocations st') = list_to_set (route_id <$> routes) ∪ dom (busLocations st) /\
    (random_calls st + length routes <= random_calls st')%nat.
Proof.
  intros Hrandom Hne Hlen. revert st.
  induction routes as [|route routes IH]; intros st Hown.
  - exists st. split; [reflexivity|]. split; [set_solver | cbn; lia].
  - apply own_ids_cons in Hown as [Hown1 Hown].
    destruct (poll_runs route st Hrandom Hne Hlen Hown1) as (st1 & Hrun1 & Hdom1 & Hcalls1).
    destruct (IH st1 Hown) as (st' & Hrun & Hdom & Hcalls).
    exists st'. split; [|split].
    + cbn [forEach]. unfold bind. now rewrite Hrun1.
    + rewrite Hdom, Hdom1. cbn [fmap list_fmap list_to_set]. set_solver.
    + cbn [length]. lia.
Qed.

End Bus.


(** The random numbers of the demonstration host are in [0, 1). *)
Lemma demo_random_ok : random_ok (host := demo_host).
Proof.
  intros k. change (Math_random k) with (nth (k mod 4) [0.25; 0.75; 0; 0.5]%float 0.5%float).
  pose proof (Nat.mod_upper_bound k 4 ltac:(lia)) as Hk.
  destruct (k mod 4)%nat as [|[|[|[|j]]]]; try reflexivity. lia.
Qed.



(** C7 fails on a catalog with a route whose id is [constructor]: over
    the stops of the source and random numbers in [0, 1), the handler of
    [/api/bus-locations] completes and answers with an empty map after
    one invocation and after two, having drawn two random numbers each
    time: the route never gets an entry, so the key set is not the set
    of the route ids of the catalog. *)
Theorem pollAll_constructor :
  pollAll (host := demo_host) [route_constructor] mock_stops initial =
    (Normal ∅, moved ∅ 2 initial) /\
  pollAll (host := demo_host) [route_constructor] mock_stops (moved ∅ 2 initial) =
    (Normal ∅, moved ∅ 4 initial) /\
  dom (busLocations (after_polls (host := demo_host) [route_constructor] mock_stops 2
                       initial)) <>
    list_to_set (route_id <$> [route_constructor]).
Proof.
  split; [reflexivity|]. split; [reflexivity|].
  change (after_polls [route_constructor] mock_stops 2 initial) with (moved ∅ 4 initial).
  cbn. rewrite dom_empty_L. set_solver.
Qed.

(** * Further properties *)

(** ** NaN in the order of doubles *)

Lemma is_nan_SF (x : float) : PrimFloat.is_nan x = true -> Prim2SF x = S754_nan.
Proof.
  unfold PrimFloat.is_nan. rewrite FloatAxioms.eqb_spec.
  destruct (Prim2SF x) as [[]|[]| |[] m e]; try reflexivity; intros H;
    apply negb_true_iff in H; revert H; unfold SFeqb, SFcompare; try discriminate;
    rewrite Z.compare_refl; change (Pos.compare_cont Eq m m) with (Pos.compare m m);
    rewrite Pos.compare_refl; discriminate.
Qed.

Lemma not_nan_SF (x : float) : PrimFloat.is_nan x = false -> Prim2SF x <> S754_nan.
Proof.
  unfold PrimFloat.is_nan. rewrite FloatAxioms.eqb_spec. intros H Hnan.
  rewrite Hnan in H. discriminate.
Qed.

Lemma ltb_nan_r (x y : float) : PrimFloat.is_nan y = true -> PrimFloat.ltb x y = false.
Proof.
  intros Hnan. rewrite FloatAxioms.ltb_spec, (is_nan_SF y Hnan).
  unfold SFltb, SFcompare. now destruct (Prim2SF x) as [?|?| |? ? ?].
Qed.

Lemma SFleb_refl (x : spec_float) : x <> S754_nan -> SFleb x x = true.
Proof. intros Hx. destruct x as [[]|[]| |[] m e]; try reflexivity; try contradiction;
  unfold SFleb, SFcompare; rewrite Z.compare_refl;
  change (Pos.compare_cont Eq m m) with (Pos.compare m m);
  now rewrite Pos.compare_refl.
Qed.

Lemma SFltb_leb_trans (x y z : spec_float) :
  SFltb x y = true -> SFleb y z = true -> SFleb x z = true.
Proof. sf_order. Qed.

Lemma SFleb_not_nan (x y : spec_float) : SFleb x y = true -> x <> S754_nan.
Proof. intros H ->. discriminate. Qed.

Lemma leb_refl (x : float) : PrimFloat.is_nan x = false -> PrimFloat.leb x x = true.
Proof. intros H. rewrite FloatAxioms.leb_spec. now apply SFleb_refl, not_nan_SF. Qed.

Lemma ltb_leb_trans (x y z : float) :
  PrimFloat.ltb x y = true -> PrimFloat.leb y z = true -> PrimFloat.leb x z = true.
Proof. rewrite FloatAxioms.ltb_spec, !FloatAxioms.leb_spec. apply SFltb_leb_trans. Qed.

Lemma leb_not_nan (x y : float) : PrimFloat.leb x y = true -> PrimFloat.is_nan x = false.
Proof.
  rewrite FloatAxioms.leb_spec. intros H. apply SFleb_not_nan in H.
  destruct (PrimFloat.is_nan x) eqn:Hnan; [|reflexivity].
  now apply is_nan_SF in Hnan.
Qed.

Lemma SFltb_false_leb (x y : spec_float) :
  SFltb x y = false -> x <> S754_nan -> y <> S754_nan -> SFleb y x = true.
Proof.
  unfold SFltb, SFleb, SFcompare.
  destruct x as [[]|[]| |[] mx ex]; destruct y as [[]|[]| |[] my ey];
    intros Hlt Hx Hy; try reflexivity; try discriminate; try contradiction;
    simpl in *; cmp_cases; simpl in *; try discriminate; try reflexivity; lia.
Qed.

Lemma ltb_false_leb (x y : float) :
  PrimFloat.ltb x y = false -> PrimFloat.is_nan x = false -> PrimFloat.is_nan y = false ->
  PrimFloat.leb y x = true.
Proof.
  rewrite FloatAxioms.ltb_spec, FloatAxioms.leb_spec. intros Hlt Hx Hy.
  apply SFltb_false_leb; [exact Hlt | now apply not_nan_SF | now apply not_nan_SF].
Qed.

Lemma ltb_asym (x y : float) : PrimFloat.ltb x y = true -> PrimFloat.ltb y x = false.
Proof.
  intros Hxy. destruct (PrimFloat.ltb y x) eqn:Hyx; [|reflexivity].
  rewrite <- (ltb_irrefl x). symmetry. now apply ltb_trans with y.
Qed.

(** ** More on the nearest stop *)

Section NearestMore.
Context {math : MathBuiltins}.
Variable location : Location.

Lemma nearer_distance (nearest stop : Stop) :
  nearer location nearest stop =
    if PrimFloat.ltb (distance_to location stop) (distance_to location nearest)
    then stop else nearest.
Proof. reflexivity. Qed.

Lemma findNearestStop_leads (first : Stop) (rest : list Stop) :
  exists i, leads location (first :: rest) i (fold_left (nearer location) rest first).
Proof. apply (leads_fold location rest [first] 0 first (leads_first location first)). Qed.

Lemma fold_nearer_NaN (rest : list Stop) (first : Stop) :
  PrimFloat.is_nan (distance_to location first) = true ->
  fold_left (nearer location) rest first = first.
Proof.
  intros Hnan. induction rest as [|stop rest IH]; [reflexivity|].
  cbn [fold_left]. rewrite nearer_distance, (ltb_nan_r _ _ Hnan). exact IH.
Qed.

Lemma fold_nearer_leb (rest : list Stop) (bound : float) (nearest : Stop) :
  PrimFloat.leb (distance_to location nearest) bound = true ->
  PrimFloat.leb (distance_to location (fold_left (nearer location) rest nearest)) bound
    = true.
Proof.
  revert nearest. induction rest as [|stop rest IH]; intros nearest Hle; [exact Hle|].
  cbn [fold_left]. apply IH. rewrite nearer_distance.
  destruct (PrimFloat.ltb (distance_to location stop) (distance_to location nearest))
    eqn:Hlt; [|exact Hle].
  now apply ltb_leb_trans with (distance_to location nearest).
Qed.

Lemma fold_nearer_not_farther (more : list Stop) (old nearest : Stop) :
  PrimFloat.ltb (distance_to location old) (distance_to location nearest) = false ->
  PrimFloat.ltb (distance_to location old)
    (distance_to location (fold_left (nearer location) more nearest)) = false.
Proof.
  revert nearest. induction more as [|stop more IH]; intros nearest Hold; [exact Hold|].
  cbn [fold_left]. apply IH. rewrite nearer_distance.
  destruct (PrimFloat.ltb (distance_to location stop) (distance_to location nearest))
    eqn:Hlt; [|exact Hold].
  destruct (PrimFloat.ltb (distance_to location old) (distance_to location stop))
    eqn:Hos; [|reflexivity].
  rewrite <- Hold. symmetry.
  now apply ltb_trans with (distance_to location stop).
Qed.

(** On a collection whose first stop is at a distance that is a number,
    the result of the reduction is at a distance that is a number and at
    most that of every stop whose distance is a number. *)
Lemma fold_nearer_least (first : Stop) (rest : list Stop) :
  PrimFloat.is_nan (distance_to location first) = false ->
  PrimFloat.is_nan (distance_to location (fold_left (nearer location) rest first))
    = false /\
  forall stop, stop ∈ first :: rest ->
    PrimFloat.is_nan (distance_to location stop) = false ->
    PrimFloat.leb (distance_to location (fold_left (nearer location) rest first))
      (distance_to location stop) = true.
Proof.
  intros Hnum.
  assert (Hres : PrimFloat.is_nan
            (distance_to location (fold_left (nearer location) rest first)) = false).
  { eapply leb_not_nan, fold_nearer_leb, leb_refl, Hnum. }
  split; [exact Hres|]. intros stop Hin Hstop.
  destruct (findNearestStop_leads first rest) as (i & _ & Hmin & _).
  apply ltb_false_leb; [now apply Hmin | exact Hstop | exact Hres].
Qed.

End NearestMore.

(** X1.  A first stop whose distance from the query point is NaN (a
    coordinate that is not a number, say) wins the reduction: no
    comparison against it succeeds, so [findNearestStop] returns it
    whatever the other stops are. *)
Theorem findNearestStop_NaN_first {math : MathBuiltins}
    (first : Stop) (rest : list Stop) (location : Location) :
  PrimFloat.is_nan (distance_to location first) = true ->
  findNearestStop (first :: rest) location = Normal first.
Proof.
  intros Hnan. unfold findNearestStop, reduce. f_equal.
  now apply fold_nearer_NaN.
Qed.

(** X1 over the series implementation: a first stop without a latitude,
    before the two stops of the source. *)
Lemma findNearestStop_NaN_first_witness :
  findNearestStop (math := series_math)
    ({| stop_id := "STOP0"; stop_name := "Unknown";
        stop_lat := PrimFloat.nan; stop_lon := 30.0616%float |} :: mock_stops)
    demo_start =
  Normal {| stop_id := "STOP0"; stop_name := "Unknown";
            stop_lat := PrimFloat.nan; stop_lon := 30.0616%float |}.
Proof. apply findNearestStop_NaN_first. reflexivity. Defined.

(** X2.  When the distance of the first stop is a number, the stop
    [findNearestStop] returns is at a distance that is a number too and
    is at most that of the first stop: a stop whose distance is NaN is
    never returned from a later position. *)
Theorem findNearestStop_number {math : MathBuiltins}
    (first : Stop) (rest : list Stop) (location : Location) :
  PrimFloat.is_nan (distance_to location first) = false ->
  exists nearest,
    findNearestStop (first :: rest) location = Normal nearest /\
    PrimFloat.leb (distance_to location nearest) (distance_to location first) = true /\
    PrimFloat.is_nan (distance_to location nearest) = false.
Proof.
  intros Hnum. eexists. split; [reflexivity|].
  assert (Hle : PrimFloat.leb
            (distance_to location (fold_left (nearer location) rest first))
            (distance_to location first) = true)
    by now apply fold_nearer_leb, leb_refl.
  split; [exact Hle | exact (leb_not_nan _ _ Hle)].
Qed.

(** X2 at the start point of the demonstration and the stops of the
    source, over the series implementation. *)
Lemma findNearestStop_number_witness :
  exists nearest,
    findNearestStop (math := series_math) mock_stops demo_start = Normal nearest /\
    PrimFloat.is_nan (distance_to (math := series_math) demo_start nearest) = false.
Proof.
  destruct (findNearestStop_number (math := series_math)
              (hd (Build_Stop "" "" 0 0) mock_stops) (tl mock_stops) demo_start eq_refl)
    as (nearest & Hrun & _ & Hnum).
  exists nearest. split; [exact Hrun | exact Hnum].
Defined.

(** X3.  The reduction goes on where it stopped: the nearest stop of a
    collection extended at its end is what the callback makes of the
    nearest stop of the collection and the added stops, in order; and the
    stop of the collection is never strictly nearer than the one found
    after the extension. *)
Theorem findNearestStop_extend {math : MathBuiltins}
    (first : Stop) (rest more : list Stop) (location : Location) :
  exists old new,
    findNearestStop (first :: rest) location = Normal old /\
    findNearestStop (first :: rest ++ more) location = Normal new /\
    new = fold_left (nearer location) more old /\
    findNearestStop (old :: more) location = Normal new /\
    PrimFloat.ltb (distance_to location old) (distance_to location new) = false.
Proof.
  exists (fold_left (nearer location) rest first),
         (fold_left (nearer location) more (fold_left (nearer location) rest first)).
  split; [reflexivity|]. split; [|split; [reflexivity|split; [reflexivity|]]].
  - unfold findNearestStop, reduce. now rewrite fold_left_app.
  - apply fold_nearer_not_farther, ltb_irrefl.
Qed.

(** X21.  When the distance of the first stop from the query point is a
    number, [findNearestStop] returns a stop of the collection whose
    distance is a number and at most the distance of every stop whose
    distance is a number, and no stop before it in the collection is at
    an equal distance: among the stops at the least distance the first
    is returned. *)
Theorem findNearestStop_least {math : MathBuiltins}
    (first : Stop) (rest : list Stop) (location : Location) :
  PrimFloat.is_nan (distance_to location first) = false ->
  exists (nearest : Stop) (i : nat),
    findNearestStop (first :: rest) location = Normal nearest /\
    (first :: rest) !! i = Some nearest /\
    PrimFloat.is_nan (distance_to location nearest) = false /\
    (forall stop, stop ∈ first :: rest ->
       PrimFloat.is_nan (distance_to location stop) = false ->
       PrimFloat.leb (distance_to location nearest) (distance_to location stop) = true) /\
    (forall j stop, (j < i)%nat -> (first :: rest) !! j = Some stop ->
       PrimFloat.eqb (distance_to location stop) (distance_to location nearest) = false).
Proof.
  intros Hnum.
  destruct (findNearestStop_leads location first rest) as (i & Hi & _ & Htie).
  destruct (fold_nearer_least location first rest Hnum) as [Hres Hleast].
  exists (fold_left (nearer location) rest first), i.
  split; [reflexivity|]. split; [exact Hi|]. split; [exact Hres|].
  split; [exact Hleast | exact Htie].
Qed.

(** X21 at the end point of the demonstration and the stops of the
    source, over the series implementation: the first stop is the
    nearest. *)
Lemma findNearestStop_least_witness :
  exists nearest i,
    findNearestStop (math := series_math) mock_stops demo_end = Normal nearest /\
    mock_stops !! i = Some nearest /\
    forall stop, stop ∈ mock_stops ->
      PrimFloat.is_nan (distance_to (math := series_math) demo_end stop) = false ->
      PrimFloat.leb (distance_to (math := series_math) demo_end nearest)
        (distance_to (math := series_math) demo_end stop) = true.
Proof.
  destruct (findNearestStop_least (math := series_math)
              (hd (Build_Stop "" "" 0 0) mock_stops) (tl mock_stops) demo_end eq_refl)
    as (nearest & i & Hrun & Hi & _ & Hleast & _).
  exists nearest, i. split; [exact Hrun|]. split; [exact Hi | exact Hleast].
Defined.

(** ** More on the recommendation *)

Section RecommendMore.
Context {math : MathBuiltins} {host : Host}.

Lemma recommendRoute_run (routes : list Route) (first : Stop) (rest : list Stop)
    (start end_ : Location) (st : State) :
  recommendRoute routes (first :: rest) start end_ st =
    (Normal {| route := at_floor routes
                 (Math_random (random_calls st) * length_number routes)%float;
               startStop := fold_left (nearer start) rest first;
               endStop := fold_left (nearer end_) rest first;
               estimatedDuration :=
                 Math_round (calculateDistance start end_ / 30 * 60)%float |},
     moved (busLocations st) 1 st).
Proof. reflexivity. Qed.

End RecommendMore.

(** X4.  When the catalog has routes (fewer than 2^32, as an array has)
    and the random number drawn is in [0, 1), the route of the
    recommendation is defined and is a route of the catalog. *)
Theorem recommendRoute_route_of_catalog {math : MathBuiltins} {host : Host}
    (routes : list Route) (first : Stop) (rest : list Stop)
    (start end_ : Location) (st : State) :
  unit_interval (Math_random (random_calls st)) = true ->
  routes <> [] -> Z.of_nat (length routes) < 2 ^ 32 ->
  exists r chosen,
    fst (recommendRoute routes (first :: rest) start end_ st) = Normal r /\
    route r = Some chosen /\ chosen ∈ routes.
Proof.
  intros Hr Hne Hlen.
  destruct (at_floor_random routes _ Hr Hne Hlen) as (chosen & Hchosen & Hin).
  rewrite recommendRoute_run. eexists _, chosen.
  split; [reflexivity|]. split; [exact Hchosen | exact Hin].
Qed.

(** X4 at the demonstration of the source. *)
Lemma recommendRoute_route_of_catalog_witness :
  exists r chosen,
    fst (recommendRoute (math := series_math) (host := demo_host)
           mock_routes mock_stops demo_start demo_end initial) = Normal r /\
    route r = Some chosen /\ chosen ∈ mock_routes.
Proof.
  apply (recommendRoute_route_of_catalog (math := series_math) (host := demo_host)
           mock_routes (hd (Build_Stop "" "" 0 0) mock_stops) (tl mock_stops)
           demo_start demo_end initial).
  - reflexivity.
  - unfold mock_routes. discriminate.
  - reflexivity.
Defined.

(** X5.  When the distances of the first stop from the start point and
    from the end point are numbers, the two boundary stops of a
    recommendation are stops of the collection whose distances (from the
    start point, from the end point) are numbers, each at most the
    distance of every stop of the collection whose distance is a
    number. *)
Theorem recommendRoute_boundary_nearest {math : MathBuiltins} {host : Host}
    (routes : list Route) (first : Stop) (rest : list Stop)
    (start end_ : Location) (st : State) :
  PrimFloat.is_nan (distance_to start first) = false ->
  PrimFloat.is_nan (distance_to end_ first) = false ->
  exists r,
    fst (recommendRoute routes (first :: rest) start end_ st) = Normal r /\
    startStop r ∈ first :: rest /\ endStop r ∈ first :: rest /\
    PrimFloat.is_nan (distance_to start (startStop r)) = false /\
    PrimFloat.is_nan (distance_to end_ (endStop r)) = false /\
    (forall stop, stop ∈ first :: rest ->
       PrimFloat.is_nan (distance_to start stop) = false ->
       PrimFloat.leb (distance_to start (startStop r)) (distance_to start stop) = true) /\
    (forall stop, stop ∈ first :: rest ->
       PrimFloat.is_nan (distance_to end_ stop) = false ->
       PrimFloat.leb (distance_to end_ (endStop r)) (distance_to end_ stop) = true).
Proof.
  intros Hstart Hend.
  rewrite recommendRoute_run. eexists. split; [reflexivity|]. cbn [startStop endStop].
  destruct (findNearestStop_leads start first rest) as (i & Hi & _).
  destruct (findNearestStop_leads end_ first rest) as (j & Hj & _).
  destruct (fold_nearer_least start first rest Hstart) as [Hnum Hleast].
  destruct (fold_nearer_least end_ first rest Hend) as [Hnum' Hleast'].
  split; [eapply list_elem_of_lookup_2, Hi|].
  split; [eapply list_elem_of_lookup_2, Hj|].
  split; [exact Hnum|]. split; [exact Hnum'|]. split; assumption.
Qed.

(** X5 at the demonstration of the source, over the series
    implementation. *)
Lemma recommendRoute_boundary_nearest_witness :
  exists r,
    fst (recommendRoute (math := series_math) (host := demo_host)
           mock_routes mock_stops demo_start demo_end initial) = Normal r /\
    startStop r ∈ mock_stops /\ endStop r ∈ mock_stops.
Proof.
  destruct (recommendRoute_boundary_nearest (math := series_math) (host := demo_host)
              mock_routes (hd (Build_Stop "" "" 0 0) mock_stops) (tl mock_stops)
              demo_start demo_end initial eq_refl eq_refl)
    as (r & Hrun & Hs & He & _).
  exists r. split; [exact Hrun|]. split; [exact Hs | exact He].
Defined.

(** X6.  A recommendation touches neither the bus locations nor the
    reports, reads neither the clock nor the identifier generator, and
    draws exactly one random number when it succeeds; when it fails (no
    stops) it fails before the draw and the state is what it was. *)
Theorem recommendRoute_frame {math : MathBuiltins} {host : Host}
    (routes : list Route) (stops : list Stop) (start end_ : Location) (st : State) :
  let st' := snd (recommendRoute routes stops start end_ st) in
  busLocations st' = busLocations st /\ reports st' = reports st /\
  now_calls st' = now_calls st /\ uuid_calls st' = uuid_calls st /\
  match fst (recommendRoute routes stops start end_ st) with
  | Normal _ => random_calls st' = S (random_calls st)
  | Throw _ => stops = [] /\ st' = st
  end.
Proof.
  destruct stops as [|first rest].
  - cbn. repeat split.
  - rewrite recommendRoute_run. cbn. repeat split.
Qed.

(** ** More on the reports *)

Section ReportsMore.
Context {host : Host}.

(** The filter, whatever the clock does. *)
Lemma filter_within_hour_run (rs : list Report) (st : State) :
  filter_with within_hour rs st =
    (Normal (kept_from (now_calls st) rs), after_now (length rs) st).
Proof.
  revert st. induction rs as [|report rs IH]; intros st.
  - now destruct st.
  - cbn [filter_with]. unfold bind. rewrite within_hour_run, IH.
    cbn [kept_from after_now now_calls length]. unfold ret.
    replace (after_now (length rs) (after_now 1 st)) with (after_now (S (length rs)) st)
      by (unfold after_now; cbn; f_equal; lia).
    change (1 + now_calls st)%nat with (S (now_calls st)).
    now destruct (Date_now (now_calls st) - timestamp report <? 3600000).
Qed.

Lemma recentReports_run (st : State) :
  recentReports st =
    (Normal (kept_from (now_calls st) (reports st)), after_now (length (reports st)) st).
Proof. apply filter_within_hour_run. Qed.

Lemma kept_from_sublist (k : nat) (rs : list Report) : sublist (kept_from k rs) rs.
Proof.
  revert k. induction rs as [|report rs IH]; intros k; cbn [kept_from].
  - constructor.
  - destruct (Date_now k - timestamp report <? 3600000).
    + now apply sublist_skip.
    + now apply sublist_cons.
Qed.

Lemma kept_from_elem (k : nat) (rs : list Report) (report : Report) :
  report ∈ kept_from k rs <->
  exists i, rs !! i = Some report /\ Date_now (k + i) - timestamp report < 3600000.
Proof.
  revert k. induction rs as [|first rs IH]; intros k; cbn [kept_from].
  - split; [intros H; inversion H | intros (i & Hi & _); discriminate].
  - assert (Hrest : report ∈ kept_from (S k) rs <->
              exists i, (first :: rs) !! S i = Some report /\
                        Date_now (k + S i) - timestamp report < 3600000).
    { rewrite IH. split; intros (i & Hi & Hage); exists i; split; try exact Hi;
        now replace (k + S i)%nat with (S k + i)%nat in * by lia. }
    destruct (Z.ltb_spec (Date_now k - timestamp first) 3600000) as [Hlt | Hge].
    + rewrite elem_of_cons, Hrest. split.
      * intros [-> | (i & Hi & Hage)]; [exists 0%nat | exists (S i)]; split; auto.
        now rewrite Nat.add_0_r.
      * intros ([|i] & Hi & Hage); [left | right; exists i; auto].
        cbn in Hi. congruence.
    + rewrite Hrest. split.
      * intros (i & Hi & Hage). exists (S i). auto.
      * intros ([|i] & Hi & Hage); [|exists i; auto].
        cbn in Hi. injection Hi as <-. rewrite Nat.add_0_r in Hage. lia.
Qed.

Lemma kept_from_app (k : nat) (rs more : list Report) :
  kept_from k (rs ++ more) = kept_from k rs ++ kept_from (k + length rs) more.
Proof.
  revert k. induction rs as [|report rs IH]; intros k; cbn [kept_from app length].
  - now rewrite Nat.add_0_r.
  - rewrite IH. replace (S k + length rs)%nat with (k + S (length rs))%nat by lia.
    now destruct (Date_now k - timestamp report <? 3600000).
Qed.

Lemma kept_from_later (k1 k2 : nat) (rs : list Report) :
  (forall i, (i < length rs)%nat -> Date_now (k1 + i) <= Date_now (k2 + i)) ->
  sublist (kept_from k2 rs) (kept_from k1 rs).
Proof.
  revert k1 k2. induction rs as [|report rs IH]; intros k1 k2 Hclock; cbn [kept_from].
  - constructor.
  - assert (Hrest : sublist (kept_from (S k2) rs) (kept_from (S k1) rs)).
    { apply IH. intros i Hi. specialize (Hclock (S i)). cbn [length] in Hclock.
      replace (S k1 + i)%nat with (k1 + S i)%nat by lia.
      replace (S k2 + i)%nat with (k2 + S i)%nat by lia. apply Hclock. lia. }
    specialize (Hclock 0%nat). cbn [length] in Hclock. rewrite !Nat.add_0_r in Hclock.
    destruct (Z.ltb_spec (Date_now k2 - timestamp report) 3600000);
      destruct (Z.ltb_spec (Date_now k1 - timestamp report) 3600000).
    + now apply sublist_skip.
    + lia.
    + now apply sublist_cons.
    + exact Hrest.
Qed.

End ReportsMore.

(** X7.  Let every reading of the clock during one invocation of the
    handler of [/api/reports] be between [lo] and [hi] (the clock may
    move while the filter runs).  Then the handler answers with a
    subsequence of the stored reports, in their order, that contains
    every stored report of age under one hour at [hi] and only reports of
    age under one hour at [lo]; it reads the clock once for each stored
    report and changes nothing else. *)
Theorem recentReports_between {host : Host} (st : State) (lo hi : Z) :
  (forall k, (now_calls st <= k < now_calls st + length (reports st))%nat ->
     lo <= Date_now k <= hi) ->
  exists recent,
    recentReports st = (Normal recent, after_now (length (reports st)) st) /\
    sublist recent (reports st) /\
    (forall report, report ∈ reports st ->
       hi - timestamp report < 3600000 -> report ∈ recent) /\
    (forall report, report ∈ recent -> lo - timestamp report < 3600000).
Proof.
  intros Hclock. exists (kept_from (now_calls st) (reports st)).
  split; [apply recentReports_run|]. split; [apply kept_from_sublist|].
  split; intros report Hin.
  - intros Hage. apply kept_from_elem.
    apply list_elem_of_lookup in Hin as (i & Hi). exists i. split; [exact Hi|].
    pose proof (lookup_lt_Some _ _ _ Hi) as Hlt.
    specialize (Hclock (now_calls st + i)%nat). lia.
  - apply kept_from_elem in Hin as (i & Hi & Hage).
    pose proof (lookup_lt_Some _ _ _ Hi) as Hlt.
    specialize (Hclock (now_calls st + i)%nat). lia.
Qed.

(** X7 at three stored reports while the clock reads 1726000000000. *)
Lemma recentReports_between_witness :
  exists recent,
    recentReports (host := demo_host) three_reports =
      (Normal recent, after_now 3 three_reports) /\
    sublist recent (reports three_reports).
Proof.
  destruct (recentReports_between (host := demo_host) three_reports
              1726000000000 1726000000001) as (recent & Hrun & Hsub & _).
  - intros k [_ Hk]. change (Date_now k) with (1726000000000 + Z.of_nat (k / 8)).
    cbn in Hk. rewrite Nat.div_small by lia. lia.
  - exists recent. split; [exact Hrun | exact Hsub].
Defined.

(** X8.  Of two invocations of the handler of [/api/reports] on the same
    stored reports, one whose clock readings are, report by report, not
    before those of the other answers with a subsequence of the other's
    answer: reports only ever leave the answer as time passes. *)
Theorem recentReports_later_fewer {host : Host} (st1 st2 : State) :
  reports st1 = reports st2 ->
  (forall i, (i < length (reports st1))%nat ->
     Date_now (now_calls st1 + i) <= Date_now (now_calls st2 + i)) ->
  exists recent1 recent2,
    fst (recentReports st1) = Normal recent1 /\
    fst (recentReports st2) = Normal recent2 /\
    sublist recent2 recent1.
Proof.
  intros Hsame Hclock. rewrite !recentReports_run. cbn [fst].
  eexists _, _. split; [reflexivity|]. split; [reflexivity|].
  rewrite <- Hsame. now apply kept_from_later.
Qed.

(** X8 at three stored reports, now and eight readings of the clock (one
    millisecond) later. *)
Lemma recentReports_later_fewer_witness :
  exists recent1 recent2,
    fst (recentReports (host := demo_host) three_reports) = Normal recent1 /\
    fst (recentReports (host := demo_host) (after_now 8 three_reports)) = Normal recent2 /\
    sublist recent2 recent1.
Proof.
  apply (recentReports_later_fewer (host := demo_host)
           three_reports (after_now 8 three_reports)).
  - reflexivity.
  - intros i Hi. cbn in Hi.
    change (1726000000000 + Z.of_nat ((0 + i) / 8) <=
            1726000000000 + Z.of_nat ((8 + 0 + i) / 8)).
    rewrite Nat.div_small by lia.
    destruct ((8 + 0 + i) / 8)%nat; lia.
Defined.

(** ** More on the bus locations *)

Section BusMore.
Context {host : Host}.
Variable stops : list Stop.

(** What one poll leaves alone, whether it completes or throws. *)
Lemma poll_frame (route : Route) (st : State) :
  let st' := snd (poll stops route st) in
  reports st' = reports st /\ now_calls st' = now_calls st /\
  uuid_calls st' = uuid_calls st /\
  dom (busLocations st) ⊆ dom (busLocations st') /\
  dom (busLocations st') ⊆ {[route_id route]} ∪ dom (busLocations st) /\
  fst (poll stops route st) <> Throw EmptyIndex /\
  fst (poll stops route st) <> Throw EmptyCatalog /\
  fst (poll stops route st) <> Throw InvalidKind.
Proof.
  destruct (busLocations st !! route_id route) as [bus|] eqn:Hbus.
  - rewrite (poll_tracking stops route st bus Hbus). cbn.
    rewrite dom_insert_L. repeat split; try discriminate; set_solver.
  - destruct (inherited (route_id route)) eqn:Hin.
    { rewrite (poll_inherited stops route st Hbus Hin). cbn.
      repeat split; try discriminate; set_solver. }
    unfold poll, bind, get_busLocations. rewrite Hbus, Hin. unfold random.
    cbn [random_calls busLocations].
    destruct (at_floor stops _) as [stop|]; cbn.
    + rewrite dom_insert_L. repeat split; try discriminate; set_solver.
    + repeat split; try discriminate; set_solver.
Qed.

Lemma forEach_poll_frame (routes : list Route) (st : State) :
  let st' := snd (forEach (poll stops) routes st) in
  reports st' = reports st /\ now_calls st' = now_calls st /\
  uuid_calls st' = uuid_calls st /\
  dom (busLocations st) ⊆ dom (busLocations st') /\
  dom (busLocations st') ⊆ route_ids routes ∪ dom (busLocations st) /\
  forall e, fst (forEach (poll stops) routes st) = Throw e -> e = TypeError.
Proof.
  revert st. induction routes as [|route routes IH]; intros st.
  - cbn. do 3 (split; [reflexivity|]). split; [set_solver|]. split; [set_solver|].
    discriminate.
  - cbn [forEach]. unfold bind.
    pose proof (poll_frame route st) as Hpoll. cbv zeta in Hpoll.
    destruct Hpoll as (Hr & Hn & Hu & Hlow & Hup & H1 & H2 & H3).
    assert (Hids : route_ids (route :: routes) = {[route_id route]} ∪ route_ids routes)
      by reflexivity.
    destruct (poll stops route st) as [[[]|e] st1]; cbn [fst snd] in *.
    + specialize (IH st1). cbv zeta in IH.
      destruct IH as (Hr' & Hn' & Hu' & Hlow' & Hup' & He).
      split; [congruence|]. split; [congruence|]. split; [congruence|].
      split; [now transitivity (dom (busLocations st1))|].
      split; [|exact He]. rewrite Hids. clear -Hup Hup'. set_solver.
    + split; [exact Hr|]. split; [exact Hn|]. split; [exact Hu|].
      split; [exact Hlow|]. split; [rewrite Hids; clear -Hup; set_solver|].
      intros e' [= <-]. destruct e; congruence.
Qed.

Lemma pollAll_frame (routes : list Route) (st : State) :
  let st' := snd (pollAll routes stops st) in
  reports st' = reports st /\ now_calls st' = now_calls st /\
  uuid_calls st' = uuid_calls st /\
  dom (busLocations st) ⊆ dom (busLocations st') /\
  dom (busLocations st') ⊆ route_ids routes ∪ dom (busLocations st) /\
  forall e, fst (pollAll routes stops st) = Throw e -> e = TypeError.
Proof.
  pose proof (forEach_poll_frame routes st) as Hframe. cbv zeta in Hframe.
  unfold pollAll, bind.
  destruct (forEach (poll stops) routes st) as [[[]|e] st1]; cbn [fst snd] in *;
    destruct Hframe as (Hr & Hn & Hu & Hlow & Hup & He).
  - do 5 (split; [assumption|]). discriminate.
  - do 5 (split; [assumption|]). intros e' [= <-]. now apply He.
Qed.

Lemma forEach_app {A} (callback : A -> M unit) (arr more : list A) (st : State) :
  forEach callback (arr ++ more) st =
    match forEach callback arr st with
    | (Normal _, st') => forEach callback more st'
    | (Throw e, st') => (Throw e, st')
    end.
Proof.
  revert st. induction arr as [|x arr IH]; intros st; [reflexivity|].
  cbn [app forEach]. unfold bind.
  destruct (callback x st) as [[[]|e] st1]; [apply IH | reflexivity].
Qed.

(** A first poll whose draw selects no stop. *)
Lemma poll_fails (route : Route) (st : State) :
  busLocations st !! route_id route = None ->
  inherited (route_id route) = false ->
  at_floor stops (Math_random (random_calls st) * length_number stops)%float = None ->
  poll stops route st = (Throw TypeError, moved (busLocations st) 1 st).
Proof.
  intros Hnone Hown Hdraw. unfold poll, bind, get_busLocations. rewrite Hnone, Hown.
  unfold random.
  cbn [random_calls busLocations]. rewrite Hdraw. reflexivity.
Qed.

(** The loop over routes that all have an entry. *)
Lemma forEach_poll_tracked (routes : list Route) (st : State) :
  all_tracked routes st ->
  forEach (poll stops) routes st =
    (Normal tt, snd (forEach (poll stops) routes st)) /\
  dom (busLocations (snd (forEach (poll stops) routes st))) = dom (busLocations st) /\
  random_calls (snd (forEach (poll stops) routes st)) =
    (2 * length routes + random_calls st)%nat.
Proof.
  revert st. induction routes as [|route routes IH]; intros st Hall.
  - cbn. auto.
  - destruct (Hall route) as [bus Hbus]; [left|].
    cbn [forEach]. unfold bind. rewrite (poll_tracking stops route st bus Hbus).
    set (st1 := moved _ 2 st).
    assert (Hdom1 : dom (busLocations st1) = dom (busLocations st)).
    { subst st1. cbn. rewrite dom_insert_L.
      apply elem_of_dom_2 in Hbus. set_solver. }
    destruct (IH st1) as (Hrun & Hdom & Hcalls).
    { intros other Hin. apply elem_of_dom. rewrite Hdom1. apply elem_of_dom.
      apply Hall. now right. }
    split; [|split].
    + rewrite Hrun at 1. reflexivity.
    + now rewrite Hdom.
    + rewrite Hcalls. subst st1. cbn. lia.
Qed.

End BusMore.

(** X11.  Once every route of the catalog has an entry, the handler of
    [/api/bus-locations] cannot fail, whatever the stops are (none, even)
    and whatever [Math.random()] returns: it answers with the map, whose
    keys are those it had, draws exactly two random numbers for each
    route, and every route has an entry still. *)
Theorem pollAll_tracked {host : Host} (routes : list Route) (stops : list Stop)
    (st : State) :
  all_tracked routes st ->
  exists st',
    pollAll routes stops st = (Normal (busLocations st'), st') /\
    dom (busLocations st') = dom (busLocations st) /\
    random_calls st' = (2 * length routes + random_calls st)%nat /\
    all_tracked routes st'.
Proof.
  intros Hall.
  destruct (forEach_poll_tracked stops routes st Hall) as (Hrun & Hdom & Hcalls).
  exists (snd (forEach (poll stops) routes st)).
  split; [|split; [exact Hdom | split; [exact Hcalls|]]].
  - unfold pollAll, bind. rewrite Hrun at 1. reflexivity.
  - intros route Hin. apply elem_of_dom. rewrite Hdom. apply elem_of_dom.
    now apply Hall.
Qed.

(** X11 at a poll without stops, after a poll over the data of the source
    has given every route its entry. *)
Lemma pollAll_tracked_witness :
  exists st',
    pollAll (host := demo_host) mock_routes []
      (snd (pollAll (host := demo_host) mock_routes mock_stops initial)) =
      (Normal (busLocations st'), st') /\
    random_calls st' =
      (2 * length mock_routes +
       random_calls (snd (pollAll (host := demo_host) mock_routes mock_stops initial)))%nat.
Proof.
  destruct (pollAll_tracked (host := demo_host) mock_routes []
              (snd (pollAll (host := demo_host) mock_routes mock_stops initial)))
    as (st' & Hrun & _ & Hcalls & _).
  - intros route Hin. apply elem_of_dom.
    assert (Hid : route_id route ∈ route_ids mock_routes)
      by (apply elem_of_list_to_set, list_elem_of_fmap; eauto).
    revert Hid. apply (proj1 (set_eq _ _)). vm_compute. reflexivity.
  - exists st'. split; [exact Hrun | exact Hcalls].
Defined.

(** X12.  A poll of the catalog stops at the first route without an entry
    whose id is not the name of an inherited property and for which the
    draw selects no stop (as with no stops at all): the handler of
    [/api/bus-locations] throws the TypeError of the access to
    [randomStop.stop_lat], after it has moved the buses of the routes
    before that one, each by two draws; no key has been added to the
    map and the routes after are not polled. *)
Theorem pollAll_stops_at_untracked {host : Host}
    (before : list Route) (route : Route) (after : list Route) (stops : list Stop)
    (st : State) :
  all_tracked before st ->
  busLocations st !! route_id route = None ->
  inherited (route_id route) = false ->
  at_floor stops
    (Math_random (2 * length before + random_calls st) * length_number stops)%float = None ->
  exists st',
    pollAll (before ++ route :: after) stops st = (Throw TypeError, st') /\
    dom (busLocations st') = dom (busLocations st) /\
    random_calls st' = (2 * length before + 1 + random_calls st)%nat /\
    reports st' = reports st.
Proof.
  intros Hall Hnone Hown Hdraw.
  destruct (forEach_poll_tracked stops before st Hall) as (Hrun & Hdom & Hcalls).
  pose proof (forEach_poll_frame stops before st) as (Hreports & _). cbv zeta in Hreports.
  set (st1 := snd (forEach (poll stops) before st)) in *.
  assert (Hnone1 : busLocations st1 !! route_id route = None).
  { apply not_elem_of_dom. rewrite Hdom. now apply not_elem_of_dom. }
  exists (moved (busLocations st1) 1 st1).
  split; [|split; [exact Hdom | split; [cbn; lia | exact Hreports]]].
  unfold pollAll, bind at 1. rewrite forEach_app, Hrun.
  cbn [forEach]. unfold bind at 1.
  rewrite (poll_fails stops route st1 Hnone1 Hown); [reflexivity|].
  now rewrite Hcalls.
Qed.

(** X12 at the first poll of the routes of the source when there are no
    stops. *)
Lemma pollAll_stops_at_untracked_witness :
  exists st',
    pollAll (host := demo_host) mock_routes [] initial = (Throw TypeError, st') /\
    dom (busLocations st') = dom (busLocations initial).
Proof.
  destruct (pollAll_stops_at_untracked (host := demo_host) []
              (hd (Build_Route "" "" "" "") mock_routes) (tl mock_routes) [] initial)
    as (st' & Hrun & Hdom & _).
  - intros route Hin. inversion Hin.
  - reflexivity.
  - reflexivity.
  - reflexivity.
  - exists st'. split; [exact Hrun | exact Hdom].
Defined.

(** ** The application *)

Section ApplicationMore.
Context {math : MathBuiltins} {host : Host}.
Variable routes : list Route.
Variable stops : list Stop.

(** A recommendation on the fields of a body: what it leaves alone. *)
Lemma recommendRoute_any_frame (start end_ : option Location) (st : State) :
  let st' := snd (recommendRoute_any routes stops start end_ st) in
  reports st' = reports st /\ uuid_calls st' = uuid_calls st /\
  busLocations st' = busLocations st /\
  forall e, fst (recommendRoute_any routes stops start end_ st) = Throw e ->
    e = TypeError.
Proof.
  assert (Hmissing : forall (c : M RouteRecommendation),
            c = match stops with
                | [] => throw TypeError
                | [_] => let* r := random in throw TypeError
                | _ :: _ :: _ => throw TypeError
                end ->
            reports (snd (c st)) = reports st /\ uuid_calls (snd (c st)) = uuid_calls st /\
            busLocations (snd (c st)) = busLocations st /\
            forall e, fst (c st) = Throw e -> e = TypeError).
  { intros c ->. destruct stops as [|s [|s' more]]; cbn;
      (do 3 (split; [reflexivity|])); now intros e [= <-]. }
  destruct start as [start|]; [destruct end_ as [end_|]|]; cbn [recommendRoute_any];
    try (now apply Hmissing).
  destruct stops as [|first rest].
  - cbn. do 3 (split; [reflexivity|]). now intros e [= <-].
  - rewrite recommendRoute_run. cbn. do 3 (split; [reflexivity|]). discriminate.
Qed.

(** What a request leaves alone, whether it is answered or fails. *)
Lemma handle_frame (req : Request) (st : State) :
  let st' := snd (handle routes stops req st) in
  reports st' = reports st /\ uuid_calls st' = uuid_calls st /\
  dom (busLocations st) ⊆ dom (busLocations st') /\
  dom (busLocations st') ⊆ route_ids routes ∪ dom (busLocations st) /\
  forall e, fst (handle routes stops req st) = Throw e -> e = TypeError.
Proof.
  assert (Hsame : forall (c : Completion Response) (st' : State),
            reports st' = reports st -> uuid_calls st' = uuid_calls st ->
            busLocations st' = busLocations st ->
            (forall e, c = Throw e -> e = TypeError) ->
            reports st' = reports st /\ uuid_calls st' = uuid_calls st /\
            dom (busLocations st) ⊆ dom (busLocations st') /\
            dom (busLocations st') ⊆ route_ids routes ∪ dom (busLocations st) /\
            forall e, c = Throw e -> e = TypeError).
  { intros c st' Hr Hu Hb Hc. do 2 (split; [assumption|]). rewrite Hb.
    split; [set_solver|]. split; [set_solver | exact Hc]. }
  destruct req as [[body|]| | | | |kind location_ description_]; cbn [handle]; cbv zeta.
  - pose proof (recommendRoute_any_frame (body_start body) (body_end body) st) as Hframe.
    cbv zeta in Hframe. unfold bind.
    destruct (recommendRoute_any routes stops (body_start body) (body_end body) st)
      as [[r|e] st1]; cbn [fst snd ret] in *;
      destruct Hframe as (Hr & Hu & Hb & He); apply Hsame; try assumption.
    + discriminate.
    + intros e' [= <-]. now apply He.
  - apply Hsame; try reflexivity. now intros e [= <-].
  - apply Hsame; try reflexivity. discriminate.
  - apply Hsame; try reflexivity. discriminate.
  - pose proof (pollAll_frame stops routes st) as Hframe. cbv zeta in Hframe.
    unfold bind.
    destruct (pollAll routes stops st) as [[m|e] st1]; cbn [fst snd ret] in *;
      destruct Hframe as (Hr & _ & Hu & Hlow & Hup & He).
    + do 4 (split; [assumption|]). discriminate.
    + do 4 (split; [assumption|]). intros e' [= <-]. now apply He.
  - unfold bind. rewrite recentReports_run.
    cbn [fst snd ret]. apply Hsame; try reflexivity. discriminate.
  - apply Hsame; try reflexivity. discriminate.
Qed.

Lemma serve_frame (reqs : list Request) (st : State) :
  reports (serve routes stops reqs st) = reports st /\
  uuid_calls (serve routes stops reqs st) = uuid_calls st /\
  dom (busLocations st) ⊆ dom (busLocations (serve routes stops reqs st)) /\
  dom (busLocations (serve routes stops reqs st)) ⊆
    route_ids routes ∪ dom (busLocations st).
Proof.
  revert st. induction reqs as [|req reqs IH]; intros st; cbn [serve].
  - do 2 (split; [reflexivity|]). split; set_solver.
  - pose proof (handle_frame req st) as Hreq. cbv zeta in Hreq.
    destruct Hreq as (Hr & Hu & Hlow & Hup & _).
    destruct (IH (snd (handle routes stops req st))) as (Hr' & Hu' & Hlow' & Hup').
    split; [congruence|]. split; [congruence|].
    split; [now transitivity (dom (busLocations (snd (handle routes stops req st))))|].
    clear -Hup Hup'. set_solver.
Qed.

Lemma load_run (first : Stop) (rest : list Stop) (st : State) :
  load routes (first :: rest) st =
    (Normal tt,
     {| busLocations := busLocations st;
        reports := reports st ++
          [ {| id := uuidv4 (uuid_calls st); type := "TRAFFIC"; location := demo_start;
               description := "Heavy traffic due to road construction";
               timestamp := Date_now (now_calls st) |} ];
        random_calls := S (random_calls st); now_calls := S (now_calls st);
        uuid_calls := S (uuid_calls st) |}).
Proof. reflexivity. Qed.

End ApplicationMore.

(** X13.  Whatever requests the application handles, in whatever order
    and whether they are answered or fail, the keys of [busLocations]
    only grow and stay among those it had and the route ids of the
    catalog: no entry is removed and no entry appears under another key.
    This needs nothing of the stops or of [Math.random()]. *)
Theorem serve_busLocations_keys {math : MathBuiltins} {host : Host}
    (routes : list Route) (stops : list Stop) (reqs : list Request) (st : State) :
  dom (busLocations st) ⊆ dom (busLocations (serve routes stops reqs st)) /\
  dom (busLocations (serve routes stops reqs st)) ⊆
    route_ids routes ∪ dom (busLocations st) /\
  (busLocations st = ∅ ->
   dom (busLocations (serve routes stops reqs st)) ⊆ route_ids routes).
Proof.
  destruct (serve_frame routes stops reqs st) as (_ & _ & Hlow & Hup).
  split; [exact Hlow|]. split; [exact Hup|].
  intros Hempty. rewrite Hempty, dom_empty_L in Hup. set_solver.
Qed.

(** X14.  No request the application handles changes the stored reports
    or takes an identifier (the one handler that would is commented
    out): after any requests the stored reports are what they were. *)
Theorem serve_reports_unchanged {math : MathBuiltins} {host : Host}
    (routes : list Route) (stops : list Stop) (reqs : list Request) (st : State) :
  reports (serve routes stops reqs st) = reports st /\
  uuid_calls (serve routes stops reqs st) = uuid_calls st.
Proof.
  destruct (serve_frame routes stops reqs st) as (Hr & Hu & _). now split.
Qed.

(** C9, as the code has it.  No handler is registered for the
    submission of a report: whatever its kind, its location and its
    description, the submission is answered 404 and the state is what it
    was (no identifier is taken, the clock is not read, nothing is
    stored), and after the submission and any further requests the
    stored reports are still what they were. *)
Theorem report_submission_unhandled {math : MathBuiltins} {host : Host}
    (routes : list Route) (stops : list Stop)
    (kind : string) (location_ : option Location) (description_ : string) (st : State) :
  handle routes stops (POST_report kind location_ description_) st
    = (Normal not_found, st) /\
  (forall reqs,
     reports (serve routes stops (POST_report kind location_ description_ :: reqs) st)
       = reports st /\
     uuid_calls (serve routes stops (POST_report kind location_ description_ :: reqs) st)
       = uuid_calls st).
Proof.
  split; [reflexivity|]. intros reqs.
  destruct (serve_frame routes stops (POST_report kind location_ description_ :: reqs) st)
    as (Hr & Hu & _).
  now split.
Qed.

(** C9, as stated, fails: after the module has loaded over the data of
    the source, a submission of the valid kind TRAFFIC is not stored and
    is answered with no report, and a submission of kind BOGUS is
    answered in the same way, not by an InvalidKind failure. *)
Lemma report_submission_not_stored :
  let st0 := snd (load (math := series_math) (host := demo_host)
                    mock_routes mock_stops initial) in
  let valid := POST_report "TRAFFIC" (Some demo_start) "Heavy traffic" in
  let bogus := POST_report "BOGUS" (Some demo_start) "nothing" in
  (fst (handle (math := series_math) (host := demo_host) mock_routes mock_stops valid st0)
     = Normal not_found /\
   reports (snd (handle (math := series_math) (host := demo_host)
                   mock_routes mock_stops valid st0)) = reports st0 /\
   length (reports st0) = 1%nat) /\
  fst (handle (math := series_math) (host := demo_host) mock_routes mock_stops bogus st0)
    = Normal not_found /\
  fst (handle (math := series_math) (host := demo_host) mock_routes mock_stops bogus st0)
    <> Throw InvalidKind.
Proof. repeat split. discriminate. Qed.

(** X9.  Round trip of the report stored at load: after the module has
    loaded (with stops) and any requests have been handled, [/api/reports]
    answers with exactly that report if the clock, read for it by the
    filter, is less than one hour past the reading that stamped it, and
    with nothing otherwise. *)
Theorem load_then_recentReports {math : MathBuiltins} {host : Host}
    (routes : list Route) (first : Stop) (rest : list Stop) (reqs : list Request) :
  let st := serve routes (first :: rest) reqs
              (snd (load routes (first :: rest) initial)) in
  let report :=
    {| id := uuidv4 0; type := "TRAFFIC"; location := demo_start;
       description := "Heavy traffic due to road construction";
       timestamp := Date_now 0 |} in
  handle routes (first :: rest) GET_reports st =
    (Normal (json_reports
               (if Date_now (now_calls st) - Date_now 0 <? 3600000 then [report] else [])),
     after_now 1 st).
Proof.
  intros st report.
  assert (Hreports : reports st = [report]).
  { subst st. destruct (serve_frame routes (first :: rest) reqs
                          (snd (load routes (first :: rest) initial))) as (Hr & _).
    rewrite Hr, load_run. reflexivity. }
  cbn [handle]. unfold bind. rewrite recentReports_run, Hreports.
  cbn [kept_from length timestamp report ret].
  now destruct (Date_now (now_calls st) - Date_now 0 <? 3600000).
Qed.




(** X17.  When the module loads with no stops, the demonstration at its
    end throws the TypeError of [findNearestStop] before anything is
    stored.  With stops it completes: it draws one random number, takes
    one identifier and one reading of the clock, and appends one report
    of kind TRAFFIC made of them; the bus locations are untouched.  The
    reports after loading from the initial state and handling any
    requests are exactly that one report. *)
Theorem load_demo {math : MathBuiltins} {host : Host}
    (routes : list Route) (stops : list Stop) (st : State) :
  load routes [] st = (Throw TypeError, st) /\
  (forall first rest, exists st',
     load routes (first :: rest) st = (Normal tt, st') /\
     (exists report,
        reports st' = reports st ++ [report] /\
        id report = uuidv4 (uuid_calls st) /\ type report = "TRAFFIC" /\
        location report = demo_start /\
        timestamp report = Date_now (now_calls st)) /\
     busLocations st' = busLocations st /\
     random_calls st' = S (random_calls st) /\
     now_calls st' = S (now_calls st) /\ uuid_calls st' = S (uuid_calls st)) /\
  (forall first rest reqs,
     reports (serve routes (first :: rest) reqs
                (snd (load routes (first :: rest) initial))) =
       [ {| id := uuidv4 0; type := "TRAFFIC"; location := demo_start;
            description := "Heavy traffic due to road construction";
            timestamp := Date_now 0 |} ]).
Proof.
  split; [reflexivity|]. split.
  - intros first rest. rewrite load_run. eexists. split; [reflexivity|]. cbn.
    split; [|auto]. eexists. split; [reflexivity|]. cbn. auto.
  - intros first rest reqs.
    destruct (serve_frame routes (first :: rest) reqs
                (snd (load routes (first :: rest) initial))) as (Hr & _).
    rewrite Hr, load_run. reflexivity.
Qed.

(** ** The way back, and mirrored points *)

(** X18.  Over any implementation whose sine is odd, exchanging the
    longitudes of two points, or their latitudes, leaves
    [calculateDistance] unchanged, to the last bit: the distance depends
    on the order of the coordinates in neither dimension. *)
Theorem calculateDistance_mirror {math : MathBuiltins} (a b : Location) :
  (forall x, Math_sin (- x) = (- Math_sin x)%float) ->
  calculateDistance {| lat := lat a; lon := lon b |} {| lat := lat b; lon := lon a |} =
    calculateDistance a b /\
  calculateDistance {| lat := lat b; lon := lon a |} {| lat := lat a; lon := lon b |} =
    calculateDistance a b.
Proof.
  intros Hodd. rewrite !calculateDistance_hav. cbv zeta. cbn [lat lon]. split.
  - now rewrite (mul_sin_swap Hodd _ (lon a) (lon b)).
  - rewrite (hav_swap Hodd (lat a) (lat b)).
    now rewrite (mul_comm (Math_cos (lat b * Math_PI / 180))).
Qed.

(** X18 at the two points of the demonstration, over the series
    implementation. *)
Lemma calculateDistance_mirror_witness :
  calculateDistance (math := series_math)
    {| lat := lat demo_start; lon := lon demo_end |}
    {| lat := lat demo_end; lon := lon demo_start |} =
  calculateDistance (math := series_math) demo_start demo_end.
Proof.
  exact (proj1 (calculateDistance_mirror (math := series_math) demo_start demo_end
                  series_sin_odd)).
Defined.

(** X19.  Over any implementation whose sine is odd, the recommendation
    for the way back, asked in the same state, is the recommendation for
    the way there with its boundary stops exchanged: same route, same
    estimated duration. *)
Theorem recommendRoute_way_back {math : MathBuiltins} {host : Host}
    (routes : list Route) (first : Stop) (rest : list Stop)
    (start end_ : Location) (st : State) :
  (forall x, Math_sin (- x) = (- Math_sin x)%float) ->
  exists there back,
    fst (recommendRoute routes (first :: rest) start end_ st) = Normal there /\
    fst (recommendRoute routes (first :: rest) end_ start st) = Normal back /\
    route back = route there /\
    startStop back = endStop there /\ endStop back = startStop there /\
    estimatedDuration back = estimatedDuration there.
Proof.
  intros Hodd. rewrite !recommendRoute_run. eexists _, _.
  split; [reflexivity|]. split; [reflexivity|].
  cbn [route startStop endStop estimatedDuration].
  do 3 (split; [reflexivity|]). now rewrite (calculateDistance_swap Hodd end_ start).
Qed.

(** X19 at the demonstration of the source, over the series
    implementation. *)
Lemma recommendRoute_way_back_witness :
  exists there back,
    fst (recommendRoute (math := series_math) (host := demo_host)
           mock_routes mock_stops demo_start demo_end initial) = Normal there /\
    fst (recommendRoute (math := series_math) (host := demo_host)
           mock_routes mock_stops demo_end demo_start initial) = Normal back /\
    estimatedDuration back = estimatedDuration there.
Proof.
  destruct (recommendRoute_way_back (math := series_math) (host := demo_host)
              mock_routes (hd (Build_Stop "" "" 0 0) mock_stops) (tl mock_stops)
              demo_start demo_end initial series_sin_odd)
    as (there & back & Hthere & Hback & _ & _ & _ & Hduration).
  exists there, back. split; [exact Hthere|]. split; [exact Hback | exact Hduration].
Defined.

(** ** The first poll of a catalog *)

Section FirstPoll.
Context {host : Host}.
Variable stops : list Stop.

Lemma forEach_poll_first (routes : list Route) (st : State) :
  random_ok -> stops <> [] -> Z.of_nat (length stops) < 2 ^ 32 ->
  own_ids routes = true ->
  NoDup (route_id <$> routes) ->
  (forall route, route ∈ routes -> busLocations st !! route_id route = None) ->
  exists st',
    forEach (poll stops) routes st = (Normal tt, st') /\
    random_calls st' = (length routes + random_calls st)%nat /\
    (forall route, route ∈ routes ->
       exists stop, stop ∈ stops /\
         busLocations st' !! route_id route = Some (position stop)) /\
    (forall key, key ∉ route_id <$> routes ->
       busLocations st' !! key = busLocations st !! key).
Proof.
  intros Hrandom Hne Hlen. revert st.
  induction routes as [|route routes IH]; intros st Hown Hnodup Hnone.
  - exists st. split; [reflexivity|]. split; [reflexivity|].
    split; [intros route Hin; inversion Hin | reflexivity].
  - cbn [fmap list_fmap] in Hnodup. apply NoDup_cons in Hnodup as [Hfresh Hnodup].
    apply own_ids_cons in Hown as [Hown1 Hown].
    destruct (poll_uninitialized stops route st (Hnone route ltac:(left)) Hown1
                (Hrandom _) Hne Hlen) as (stop & Hstop & Hrun1).
    set (st1 := moved (<[route_id route := position stop]> (busLocations st)) 1 st) in *.
    destruct (IH st1 Hown Hnodup) as (st' & Hrun & Hcalls & Hplaced & Hother).
    { intros other Hin. subst st1. cbn [moved busLocations].
      rewrite lookup_insert_ne; [apply Hnone; now right|].
      intros Heq. apply Hfresh. rewrite Heq. apply list_elem_of_fmap. eauto. }
    exists st'. split; [|split; [|split]].
    + cbn [forEach]. unfold bind. now rewrite Hrun1.
    + rewrite Hcalls. subst st1. cbn. lia.
    + intros other Hin. apply elem_of_cons in Hin as [-> | Hin]; [|now apply Hplaced].
      exists stop. split; [exact Hstop|].
      rewrite (Hother _ Hfresh). subst st1. cbn [moved busLocations].
      apply lookup_insert_eq.
    + intros key Hkey. cbn [fmap list_fmap] in Hkey.
      apply not_elem_of_cons in Hkey as [Hneq Hkey].
      rewrite (Hother _ Hkey). subst st1. cbn [moved busLocations].
      now apply lookup_insert_ne.
Qed.

End FirstPoll.

(** X20.  Let the random numbers be in [0, 1), the stops be non-empty
    and the routes of the catalog have distinct ids, none the name of an
    inherited property and none with an entry yet.  Then the handler of
    [/api/bus-locations] draws exactly one random number for each route
    and answers with a map in which every route of the catalog is
    exactly at the position of a stop; the entries under other keys are
    what they were. *)
Theorem pollAll_first {host : Host} (routes : list Route) (stops : list Stop)
    (st : State) :
  random_ok -> stops <> [] -> Z.of_nat (length stops) < 2 ^ 32 ->
  own_ids routes = true ->
  NoDup (route_id <$> routes) ->
  (forall route, route ∈ routes -> busLocations st !! route_id route = None) ->
  exists snapshot st',
    pollAll routes stops st = (Normal snapshot, st') /\
    snapshot = busLocations st' /\
    random_calls st' = (length routes + random_calls st)%nat /\
    (forall route, route ∈ routes ->
       exists stop, stop ∈ stops /\ snapshot !! route_id route = Some (position stop)) /\
    (forall key, key ∉ route_id <$> routes -> snapshot !! key = busLocations st !! key) /\
    all_tracked routes st'.
Proof.
  intros Hrandom Hne Hlen Hown Hnodup Hnone.
  destruct (forEach_poll_first stops routes st Hrandom Hne Hlen Hown Hnodup Hnone)
    as (st' & Hrun & Hcalls & Hplaced & Hother).
  exists (busLocations st'), st'.
  split; [unfold pollAll, bind; now rewrite Hrun|].
  split; [reflexivity|]. split; [exact Hcalls|]. split; [exact Hplaced|].
  split; [exact Hother|].
  intros route Hin. destruct (Hplaced route Hin) as (stop & _ & Hentry).
  rewrite Hentry. eauto.
Qed.

(** X20 at the first poll over the data of the source. *)
Lemma pollAll_first_witness :
  exists snapshot st',
    pollAll (host := demo_host) mock_routes mock_stops initial = (Normal snapshot, st') /\
    random_calls st' = length mock_routes /\
    all_tracked mock_routes st'.
Proof.
  destruct (pollAll_first (host := demo_host) mock_routes mock_stops initial
              demo_random_ok)
    as (snapshot & st' & Hrun & _ & Hcalls & _ & _ & Hall).
  - discriminate.
  - reflexivity.
  - reflexivity.
  - vm_compute. repeat constructor; set_solver.
  - intros route _. reflexivity.
  - exists snapshot, st'. split; [exact Hrun|]. split; [|exact Hall].
    rewrite Hcalls. cbn. lia.
Defined.

(** X22.  Let the random numbers be in [0, 1), the stop collection be
    non-empty and no route id of the catalog be the name of an inherited
    property.  Then the handler of [/api/bus-locations] polls every route
    (each poll draws at least one random number), completes normally and
    answers with the whole map, whose keys are then those it had before
    together with the route ids of the catalog.  Hence, starting from
    the empty map, after any number of invocations the map has keys only
    among the route ids of the catalog, one entry for a key, and after
    at least one invocation its keys are exactly those ids. *)
Theorem pollAll_snapshot {host : Host} (routes : list Route) (stops : list Stop) :
  random_ok -> stops <> [] -> Z.of_nat (length stops) < 2 ^ 32 ->
  own_ids routes = true ->
  (forall st, exists st',
     pollAll routes stops st = (Normal (busLocations st'), st') /\
     dom (busLocations st') = list_to_set (route_id <$> routes) ∪ dom (busLocations st) /\
     (random_calls st + length routes <= random_calls st')%nat) /\
  (forall n,
     let locations := busLocations (after_polls routes stops n initial) in
     dom locations ⊆ list_to_set (route_id <$> routes) /\
     NoDup (map_to_list locations).*1 /\
     ((1 <= n)%nat -> dom locations = list_to_set (route_id <$> routes))).
Proof.
  intros Hrandom Hne Hlen Hown.
  assert (Hstep : forall st, exists st',
            pollAll routes stops st = (Normal (busLocations st'), st') /\
            dom (busLocations st') =
              list_to_set (route_id <$> routes) ∪ dom (busLocations st) /\
            (random_calls st + length routes <= random_calls st')%nat).
  { intros st. destruct (forEach_poll_runs stops routes st Hrandom Hne Hlen Hown)
      as (st' & Hrun & Hdom & Hcalls).
    exists st'. split; [|split; assumption].
    unfold pollAll, bind. now rewrite Hrun. }
  split; [exact Hstep|].
  assert (Hiter : forall n st,
            dom (busLocations st) ⊆ list_to_set (route_id <$> routes) ->
            dom (busLocations (after_polls routes stops n st)) ⊆
              list_to_set (route_id <$> routes) /\
            ((1 <= n)%nat ->
             dom (busLocations (after_polls routes stops n st)) =
               list_to_set (route_id <$> routes))).
  { induction n as [|n IH]; intros st Hsub; cbn [after_polls].
    - split; [assumption | lia].
    - destruct (Hstep st) as (st' & Hrun & Hdom & _). rewrite Hrun. cbn [snd].
      assert (Hdom' : dom (busLocations st') = list_to_set (route_id <$> routes))
        by (rewrite Hdom; set_solver).
      destruct (IH st' ltac:(rewrite Hdom'; set_solver)) as [Hsub' Heq].
      split; [assumption|]. intros _. destruct n as [|n].
      + exact Hdom'.
      + apply Heq. lia. }
  intros n locations.
  destruct (Hiter n initial ltac:(cbn; set_solver)) as [Hsub Heq].
  split; [exact Hsub|]. split; [apply NoDup_fst_map_to_list | exact Heq].
Qed.

(** X22 at two invocations over the data of the source. *)
Lemma pollAll_snapshot_witness :
  dom (busLocations (after_polls (host := demo_host) mock_routes mock_stops 2 initial)) =
    list_to_set (route_id <$> mock_routes).
Proof.
  destruct (pollAll_snapshot (host := demo_host) mock_routes mock_stops demo_random_ok)
    as [_ Hiter]; [discriminate | reflexivity | reflexivity |].
  destruct (Hiter 2%nat) as (_ & _ & Heq). apply Heq. lia.
Defined.
